(** * The command dispatch pipeline of command.ts

    A shallow embedding of [src/defaultModules/CommandHandler.ts] (the two
    listeners [onMessage] and [interaction]) and of the built-in converters
    of [src/builtinModules/BuiltinCommandConverters.ts], with the properties
    of the dispatch pipeline stated and proved over it.

    The listeners are [async] functions with early [return]s that call
    user-supplied functions (prefix function, checks, converters, handlers)
    and report on an event emitter.  They are embedded in a state monad with
    early exit: the state holds the world the user functions act on and the
    chronological trace of what the dispatcher itself did (emissions and
    handler calls). *)

From Stdlib Require Import Floats.PrimFloat.
From Stdlib Require Import String Ascii List Bool Arith Lia.
Import ListNotations.

Set Implicit Arguments.

Local Open Scope string_scope.
Local Open Scope list_scope.

(** ** The fragments of the JavaScript runtime the listeners use

    Strings are sequences of 8-bit characters; [toLowerCase] maps the Latin
    capitals [A]..[Z] and leaves every other character as it is, which is
    what JavaScript does on ASCII text ([is_ascii]); on other characters
    JavaScript's mapping follows Unicode and is not given here. *)

Module Js.

(** [s.startsWith(p)] *)
Definition startsWith (s p : string) : bool := String.prefix p s.

(** [s.slice(n)] for [0 <= n]: the string without its first [n]
    characters (empty when [n] exceeds the length). *)
Fixpoint slice (n : nat) (s : string) : string :=
  match n, s with
  | 0, _ => s
  | S _, EmptyString => EmptyString
  | S n', String _ s' => slice n' s'
  end.

(** [s.slice(a, -b)]: drop [a] characters at the front and [b] at the
    end. *)
Definition slice_between (a b : nat) (s : string) : string :=
  String.substring a (String.length s - a - b) s.

(** [s.endsWith(p)] *)
Definition endsWith (s p : string) : bool :=
  (String.length p <=? String.length s)%nat &&
  String.eqb (slice (String.length s - String.length p) s) p.

(** [s.split(c)] for a one-character separator: always at least one
    piece, an empty piece between two adjacent separators. *)
Fixpoint split (sep : ascii) (s : string) : list string :=
  match s with
  | EmptyString => [EmptyString]
  | String c s' =>
      if Ascii.eqb c sep then EmptyString :: split sep s'
      else match split sep s' with
           | [] => [String c EmptyString]
           | w :: ws => String c w :: ws
           end
  end.

Definition lower_char (c : ascii) : ascii :=
  let n := nat_of_ascii c in
  if ((65 <=? n) && (n <=? 90))%nat then ascii_of_nat (n + 32) else c.

(** [s.toLowerCase()] *)
Fixpoint toLowerCase (s : string) : string :=
  match s with
  | EmptyString => EmptyString
  | String c s' => String (lower_char c) (toLowerCase s')
  end.

(** The strings on which [toLowerCase] above is JavaScript's: every
    character is below 128. *)
Fixpoint is_ascii (s : string) : bool :=
  match s with
  | EmptyString => true
  | String c s' => (nat_of_ascii c <? 128)%nat && is_ascii s'
  end.

(** [a.includes(x)] on an array of strings. *)
Definition includes (a : list string) (x : string) : bool :=
  existsb (String.eqb x) a.

(** [s.includes(x)] on a string: [x] occurs in [s]. *)
Definition str_includes (s x : string) : bool :=
  match String.index 0 x s with Some _ => true | None => false end.

(** [a.shift()]: the first element ([undefined], here [None], on the
    empty array) and the array left behind. *)
Definition shift (A : Type) (a : list A) : option A * list A :=
  match a with
  | [] => (None, [])
  | x :: a' => (Some x, a')
  end.

(** [a.join(sep)] on an array of strings some of which may be
    [undefined]; an [undefined] element is printed as the empty string. *)
Definition join (sep : string) (a : list (option string)) : string :=
  String.concat sep
    (map (fun o => match o with Some s => s | None => EmptyString end) a).

(** [a[i] = v]: replaces the element at [i], appends at [i = a.length],
    and beyond that extends the array, the slots in between reading as
    [undef]. *)
Fixpoint set_index (A : Type) (undef : A) (a : list A) (i : nat) (v : A) : list A :=
  match i, a with
  | 0, [] => [v]
  | 0, _ :: a' => v :: a'
  | S i', [] => undef :: set_index undef [] i' v
  | S i', x :: a' => x :: set_index undef a' i' v
  end.

(** [!v] for [v : string | undefined]. *)
Definition not_str (v : option string) : bool :=
  match v with
  | None => true
  | Some s => String.eqb s EmptyString
  end.

End Js.

(** ** Values of the command framework *)

(** Type tags of command parameters and converters.  In the source they are
    constructor functions ([String], [Number], [Message], [User],
    [GuildMember] or a class of the application) compared with [===]. *)
Inductive TypeTag :=
| TString | TNumber | TMessage | TUser | TGuildMember
| TOther (ref : nat).

Definition TypeTag_eqb (a b : TypeTag) : bool :=
  match a, b with
  | TString, TString | TNumber, TNumber | TMessage, TMessage
  | TUser, TUser | TGuildMember, TGuildMember => true
  | TOther x, TOther y => Nat.eqb x y
  | _, _ => false
  end.

(** [type.constructor.name]: every type tag is a constructor function, whose
    own constructor is [Function]. *)
Definition constructor_name (t : TypeTag) : string := "Function".

(** A declared parameter of a text command. *)
Record Argument := {
  type : TypeTag;
  optional : bool;
  rest : bool
}.

(** The [slashCommands.guild] option, read by the interaction listener
    through an [any] cast: absent, one guild id, or an array of ids. *)
Inductive GuildOption :=
| GuildUndefined
| GuildString (s : string)
| GuildArray (ids : list string).

Section Dispatch.

(** The platform collaborator (discord.js), consumed as it is. *)
Variable World : Type.
Variable GuildMember : Type.
Variable Permissions : Type.
Variable PermissionResolvable : Type.
Variable Options : Type.
Variable permissionsIn : GuildMember -> string -> Permissions.
Variable has : Permissions -> PermissionResolvable -> bool.

Record Guild := { me : option GuildMember }.

(** A text message event: what [onMessage] reads of it. *)
Record Message := {
  author_id : string;
  author_bot : bool;
  content : string;
  guild : option Guild;
  member : option GuildMember;
  channel_id : string
}.

(** JavaScript values that flow through the dispatcher.  A promise is
    given with how it settles; a promise is never fulfilled with another
    promise. *)
Inductive JsValue :=
| JUndefined
| JNull
| JBoolean (b : bool)
| JNumber (n : float)
| JString (s : string)
| JMessage (m : Message)
| JContext (m : Message) (prefix : string)
| JError (message : string)
| JObject (ref : nat)
| JPromise (p : Settlement)
with Settlement :=
| Fulfilled (v : JsValue)
| Rejected (reason : JsValue)
| Pending.

(** How a call of a JavaScript function completes. *)
Inductive Completion :=
| Return (v : JsValue)
| Throw (e : JsValue).

(** A user-supplied function, once applied to its arguments: it acts on
    the world and completes. *)
Definition Callback := World -> Completion * World.

(** [!!v] *)
Definition truthy (v : JsValue) : bool :=
  match v with
  | JUndefined | JNull => false
  | JBoolean b => b
  | JNumber n => negb (is_nan n || is_zero n)
  | JString s => negb (String.eqb s EmptyString)
  | _ => true
  end.

(** A registered text command.  [execute] is applied with [module] as
    [this]. *)
Record Command := {
  name : string;
  aliases : list string;
  ownerOnly : bool;
  clientPermissions : PermissionResolvable;
  checks : list (Message -> Callback);
  args : list Argument;
  usesCtx : bool;
  execute : nat -> list JsValue -> Callback;
  module : nat
}.

(** A registered argument converter; [convert] takes two positional
    arguments and is applied with [conv_module] as [this]. *)
Record ArgumentConverter := {
  conv_type : TypeTag;
  convert : nat -> JsValue -> JsValue -> Callback;
  conv_module : nat
}.

(** An interaction event.  [command_name] is [i.command!.name] and
    [i_channel_id] is [i.channel!.id]. *)
Record Interaction := {
  guildId : option string;
  isCommand : bool;
  command_name : string;
  i_guild : option Guild;
  i_member : option GuildMember;
  i_channel_id : string;
  user_id : string;
  options : Options
}.

Record SlashCommand := {
  s_name : string;
  s_ownerOnly : bool;
  s_clientPermissions : PermissionResolvable;
  s_execute : nat -> Interaction -> Options -> Callback;
  s_module : nat
}.

(** What [await] gives on the result of a call: a value, an exception (the
    call threw or its promise was rejected), or nothing ever (its promise
    never settles). *)
Inductive Awaited (A : Type) :=
| Got (a : A)
| Raised (e : JsValue)
| Never.

Arguments Raised {A} e.
Arguments Never {A}.

(** The configured prefix: a string, or a function of the message whose
    awaited result is a string. *)
Inductive Prefix :=
| PrefixString (p : string)
| PrefixFunction (f : Message -> World -> Awaited string * World).

(** The [CommandClient] as the handler reads it:
    [commandOptions.commands.allowSelf], [.allowBots],
    [commandOptions.prefix], [client.user!.id], [owners],
    [registry.commandManager.commandList], [.argConverterList],
    [commandOptions.slashCommands.guild] and
    [registry.slashCommandManager.commandList]. *)
Record CommandClient := {
  allowSelf : bool;
  allowBots : bool;
  prefix : Prefix;
  client_user_id : string;
  owners : list string;
  commandList : list Command;
  argConverterList : list ArgumentConverter;
  slashCommands_guild : GuildOption;
  slashCommandList : list SlashCommand
}.

(** The error objects the dispatcher puts on the error channel: the error
    classes of [src/error], and [Thrown e] for a plain JavaScript value
    ([new Error(...)] built on the spot, or what a [catch] caught). *)
Inductive CommandError :=
| OwnerOnlyCommand (cmd : Command) (msg : Message)
| MissingClientPermissions (cmd : Command) (p : PermissionResolvable) (msg : Message)
| MissingUserPermissions (cmd : Command) (p : PermissionResolvable) (msg : Message)
| CheckFailedError (cmd : Command)
| MissingSlashClientPermissions (cmd : SlashCommand) (p : PermissionResolvable) (i : Interaction)
| MissingSlashUserPermissions (cmd : SlashCommand) (p : PermissionResolvable) (i : Interaction)
| OwnerOnlySlashCommand (cmd : SlashCommand) (i : Interaction)
| Thrown (e : JsValue).

(** What the dispatcher does that can be observed: an emission on
    ['commandError'] or ['slashCommandError'] (the latter with [i.command],
    given by its name), or a call of a handler. *)
Inductive Action :=
| EmitCommandError (e : CommandError) (msg : Message) (cmd : Command)
| EmitSlashCommandError (e : CommandError) (i : Interaction) (command : string)
| Execute (cmd : Command) (executeArgs : list JsValue)
| ExecuteSlash (cmd : SlashCommand) (i : Interaction) (o : Options).

Record State := {
  world : World;
  trace : list Action
}.


(** ** The listener monad *)

(** How the promise returned by an [async] listener settles. *)
Inductive Outcome :=
| Resolved
| RejectedWith (e : JsValue)
| Suspended.

(** One stretch of a listener's body either goes on with a value or ends
    the listener ([return], an uncaught exception, an [await] that never
    resumes). *)
Inductive Step (A : Type) :=
| Next (a : A) (s : State)
| Stop (o : Outcome) (s : State).

Arguments Stop {A} o s.

Definition M (A : Type) : Type := State -> Step A.

Definition ret (A : Type) (a : A) : M A := fun s => Next a s.

Definition bind (A B : Type) (m : M A) (k : A -> M B) : M B :=
  fun s => match m s with
           | Next a s' => k a s'
           | Stop o s' => Stop o s'
           end.

Notation "x <- m ;; k" := (bind m (fun x => k))
  (at level 61, m at next level, right associativity).
Notation "m ;; k" := (bind m (fun _ => k))
  (at level 61, right associativity).

(** [return] out of the listener. *)
Definition return_ (A : Type) : M A := fun s => Stop Resolved s.

(** An exception nothing catches: the listener's promise is rejected. *)
Definition throw_ (A : Type) (e : JsValue) : M A := fun s => Stop (RejectedWith e) s.

(** [this.client.emit(...)], and the record of a handler call. *)
Definition emit (a : Action) : M unit :=
  fun s => Next tt {| world := world s; trace := trace s ++ [a] |}.

(** Calling a user-supplied function. *)
Definition call (f : Callback) : M Completion :=
  fun s => let (c, w) := f (world s) in Next c {| world := w; trace := trace s |}.

(** [await v] *)
Definition await (v : JsValue) : M Completion :=
  match v with
  | JPromise (Fulfilled x) => ret (Return x)
  | JPromise (Rejected e) => ret (Throw e)
  | JPromise Pending => fun s => Stop Suspended s
  | _ => ret (Return v)
  end.

(** [await f(...)], with an exception of either kind handed to the
    enclosing [try] (or to the caller when there is none). *)
Definition awaitCall (f : Callback) : M Completion :=
  c <- call f ;;
  match c with
  | Throw e => ret (Throw e)
  | Return v => await v
  end.

(** Running a listener to the end of its body. *)
Definition run (m : M unit) (s : State) : Outcome * State :=
  match m s with
  | Next _ s' => (Resolved, s')
  | Stop o s' => (o, s')
  end.

(** ** The capability queries shared by the two listeners *)

(** [!who?.permissionsIn(channel).has(p)] *)
Definition lacks (who : option GuildMember) (channel : string)
    (p : PermissionResolvable) : bool :=
  match who with
  | None => true
  | Some m => negb (has (permissionsIn m channel) p)
  end.

(** [g?.me] *)
Definition guild_me (g : option Guild) : option GuildMember :=
  match g with
  | None => None
  | Some g => me g
  end.

(** ** [CommandHandler.onMessage] *)

Section OnMessage.

Variable client : CommandClient.
Variable msg : Message.

(** Lines 30-34: the prefix, awaited when it is a function. *)
Definition resolvePrefix : M string :=
  match prefix client with
  | PrefixString p => ret p
  | PrefixFunction f =>
      fun s =>
        let (r, w) := f msg (world s) in
        let s' := {| world := w; trace := trace s |} in
        match r with
        | Got p => Next p s'
        | Raised e => Stop (RejectedWith e) s'
        | Never => Stop Suspended s'
        end
  end.

(** Lines 40-44: the predicate of [commandList.find]. *)
Definition matches (command : string) (x : Command) : bool :=
  String.eqb (Js.toLowerCase (name x)) (Js.toLowerCase command)
  || Js.includes (map Js.toLowerCase (aliases x)) command.

(** Lines 24-45: filtering, prefix, tokens and command lookup.  Gives the
    prefix, the command and the tokens after the invocation name. *)
Definition resolve : M (string * Command * list string) :=
  if negb (allowSelf client) && String.eqb (author_id msg) (client_user_id client)
  then return_ _ else
  if negb (allowBots client) && author_bot msg then return_ _ else
  prefix <- resolvePrefix ;;
  if negb (Js.startsWith (content msg) prefix) then return_ _ else
  let args := Js.split " " (Js.slice (String.length prefix) (content msg)) in
  let (command, args) := Js.shift args in
  match command with
  | None => return_ _
  | Some command =>
      if String.eqb command EmptyString then return_ _ else
      match find (matches command) (commandList client) with
      | None => return_ _
      | Some cmd => ret (prefix, cmd, args)
      end
  end.

(** Lines 46-76: owner-only, then the permissions of the client, then those
    of the author. *)
Definition gate (cmd : Command) : M unit :=
  (if ownerOnly cmd && negb (Js.includes (owners client) (author_id msg))
   then emit (EmitCommandError (OwnerOnlyCommand cmd msg) msg cmd) ;; return_ _
   else ret tt) ;;
  (if lacks (guild_me (guild msg)) (channel_id msg) (clientPermissions cmd)
   then emit (EmitCommandError
                (MissingClientPermissions cmd (clientPermissions cmd) msg) msg cmd) ;;
        return_ _
   else ret tt) ;;
  (if lacks (member msg) (channel_id msg) (clientPermissions cmd)
   then emit (EmitCommandError
                (MissingUserPermissions cmd (clientPermissions cmd) msg) msg cmd) ;;
        return_ _
   else ret tt).

(** Lines 78-92: the checks, in order, each inside [try ... catch]. *)
Fixpoint runChecks (cmd : Command) (checks : list (Message -> Callback)) : M unit :=
  match checks with
  | [] => ret tt
  | check :: more =>
      c <- awaitCall (check msg) ;;
      match c with
      | Return r =>
          if negb (truthy r)
          then emit (EmitCommandError (CheckFailedError cmd) msg cmd) ;; return_ _
          else runChecks cmd more
      | Throw _ => return_ _
      end
  end.

(** The two [Error] objects of the argument loop with a fixed message. *)
Definition MissingArgument : CommandError :=
  Thrown (JError "An argument is required but not provided.").

Definition ConversionFailed : CommandError :=
  Thrown (JError "Argument converter returned no result.").

Definition NoConverter (t : TypeTag) : CommandError :=
  Thrown (JError ("No converter found for type " ++ constructor_name t ++ ".")).

(** A token as a JavaScript value. *)
Definition token (v : option string) : JsValue :=
  match v with
  | None => JUndefined
  | Some s => JString s
  end.

(** How one turn of the argument loop ends when it does not return from
    the listener. *)
Inductive LoopControl :=
| Continue (args : list string) (parsedArgs : list JsValue)
| Break (parsedArgs : list JsValue).

(** Lines 96-146: the body of the argument loop at index [i]. *)
Definition convertArg (cmd : Command) (i : nat) (arg : Argument)
    (args : list string) (parsedArgs : list JsValue) : M LoopControl :=
  let (v, args) := Js.shift args in
  if rest arg then
    ret (Break (parsedArgs ++ [JString (Js.join " " (v :: map Some args))]))
  else if negb (optional arg) && Js.not_str v then
    emit (EmitCommandError MissingArgument msg cmd) ;; return_ _
  else if optional arg && Js.not_str v then
    ret (Break parsedArgs)
  else if TypeTag_eqb (type arg) TString then
    ret (Continue args (Js.set_index JUndefined parsedArgs i (token v)))
  else
    match find (fun x => TypeTag_eqb (conv_type x) (type arg))
               (argConverterList client) with
    | Some converter =>
        c <- awaitCall (convert converter (conv_module converter)
                          (token v) (JMessage msg)) ;;
        match c with
        | Return r =>
            if negb (truthy r)
            then emit (EmitCommandError ConversionFailed msg cmd) ;; return_ _
            else ret (Continue args (Js.set_index JUndefined parsedArgs i r))
        | Throw e => emit (EmitCommandError (Thrown e) msg cmd) ;; return_ _
        end
    | None => emit (EmitCommandError (NoConverter (type arg)) msg cmd) ;; return_ _
    end.

(** Lines 95-147: the loop over the declared parameters, from index [i]. *)
Fixpoint convertArgs (cmd : Command) (i : nat) (commandArgs : list Argument)
    (args : list string) (parsedArgs : list JsValue) : M (list JsValue) :=
  match commandArgs with
  | [] => ret parsedArgs
  | arg :: more =>
      ctl <- convertArg cmd i arg args parsedArgs ;;
      match ctl with
      | Continue args' parsedArgs' => convertArgs cmd (S i) more args' parsedArgs'
      | Break parsedArgs' => ret parsedArgs'
      end
  end.

(** Lines 148-159: the handler is called, not awaited, inside
    [try ... catch]. *)
Definition invoke (prefix : string) (cmd : Command) (parsedArgs : list JsValue) : M unit :=
  let executeArgs :=
    (if usesCtx cmd then JContext msg prefix else JMessage msg) :: parsedArgs in
  emit (Execute cmd executeArgs) ;;
  c <- call (execute cmd (module cmd) executeArgs) ;;
  match c with
  | Return _ => ret tt
  | Throw e => emit (EmitCommandError (Thrown e) msg cmd)
  end.

Definition onMessage : M unit :=
  r <- resolve ;;
  let '(prefix, cmd, tokens) := r in
  gate cmd ;;
  runChecks cmd (checks cmd) ;;
  parsedArgs <- convertArgs cmd 0 (args cmd) tokens [] ;;
  invoke prefix cmd parsedArgs.

End OnMessage.

(** ** [CommandHandler.interaction] *)

Section InteractionListener.

Variable client : CommandClient.
Variable i : Interaction.

(** Lines 164-171, the condition of the first [if]:
    [(guild && guild !== i.guildId) || !guild.includes(i.guildId)].
    With no [guild] option the second disjunct reads [includes] of
    [undefined] and throws; an array is never [===] to a guild id; on a
    string, [includes] looks for the id printed as a string ([null] prints
    as ["null"]). *)
Definition guild_mismatch : M bool :=
  match slashCommands_guild client with
  | GuildUndefined =>
      throw_ _ (JError "Cannot read properties of undefined (reading 'includes')")
  | GuildString g =>
      ret ((negb (String.eqb g EmptyString)
            && negb (match guildId i with
                     | Some x => String.eqb g x
                     | None => false
                     end))
           || negb (Js.str_includes g (match guildId i with
                                       | Some x => x
                                       | None => "null"
                                       end)))
  | GuildArray _ => ret true
  end.

(** Lines 180-216: the permissions of the client, then those of the
    member, then owner-only. *)
Definition slashGate (command : SlashCommand) : M unit :=
  (if lacks (guild_me (i_guild i)) (i_channel_id i) (s_clientPermissions command)
   then emit (EmitSlashCommandError
                (MissingSlashClientPermissions command (s_clientPermissions command) i)
                i (command_name i)) ;;
        return_ _
   else ret tt) ;;
  (if lacks (i_member i) (i_channel_id i) (s_clientPermissions command)
   then emit (EmitSlashCommandError
                (MissingSlashUserPermissions command (s_clientPermissions command) i)
                i (command_name i)) ;;
        return_ _
   else ret tt) ;;
  (if s_ownerOnly command && negb (Js.includes (owners client) (user_id i))
   then emit (EmitSlashCommandError (OwnerOnlySlashCommand command i)
                i (command_name i)) ;;
        return_ _
   else ret tt).

(** Lines 218-222: the handler is called and awaited inside
    [try ... catch]. *)
Definition slashInvoke (command : SlashCommand) : M unit :=
  emit (ExecuteSlash command i (options i)) ;;
  c <- awaitCall (s_execute command (s_module command) i (options i)) ;;
  match c with
  | Return _ => ret tt
  | Throw e => emit (EmitSlashCommandError (Thrown e) i (command_name i)) ;; return_ _
  end.

Definition interaction : M unit :=
  drop <- guild_mismatch ;;
  if drop then return_ _ else
  if negb (isCommand i) then return_ _ else
  match find (fun x => String.eqb (s_name x) (command_name i))
             (slashCommandList client) with
  | None => return_ _
  | Some command =>
      slashGate command ;;
      slashInvoke command
  end.

End InteractionListener.

End Dispatch.

Arguments JUndefined {GuildMember}.
Arguments JNull {GuildMember}.
Arguments JBoolean {GuildMember} b.
Arguments JNumber {GuildMember} n.
Arguments JString {GuildMember} s.
Arguments JError {GuildMember} message.
Arguments JObject {GuildMember} ref.
Arguments Pending {GuildMember}.
Arguments Got {GuildMember A} a.
Arguments Raised {GuildMember A} e.
Arguments Never {GuildMember A}.
Arguments Resolved {GuildMember}.
Arguments Suspended {GuildMember}.
Arguments Stop {World GuildMember PermissionResolvable Options A} o s.
Arguments return_ {World GuildMember PermissionResolvable Options A} s.
Arguments CheckFailedError {World GuildMember PermissionResolvable Options} cmd.
Arguments Thrown {World GuildMember PermissionResolvable Options} e.
Arguments MissingArgument {World GuildMember PermissionResolvable Options}.
Arguments ConversionFailed {World GuildMember PermissionResolvable Options}.
Arguments NoConverter {World GuildMember PermissionResolvable Options} t.

Notation "x <- m ;; k" := (bind m (fun x => k))
  (at level 61, m at next level, right associativity).
Notation "m ;; k" := (bind m (fun _ => k))
  (at level 61, right associativity).

(** ** [BuiltinCommandConverters]

    The methods are embedded with their parameters in the order they are
    declared, after [this].  JavaScript checks no argument types at a call,
    so each takes and gives plain values. *)

Module BuiltinCommandConverters.

Section Converters.

Variable World : Type.
Variable GuildMember : Type.

(** [Number(s)] on a string, and on an object (through its [valueOf] or
    [toString]), as the runtime and the platform's classes define them. *)
Variable StringToNumber : string -> float.
Variable ObjectToNumber : JsValue GuildMember -> float.

(** [this.client.users.cache.get(id)] and [g.members.cache.get(id)]: the
    reference of the cached object, if any. *)
Variable users_cache : string -> option nat.
Variable members_cache : Guild GuildMember -> string -> option nat.

(** The [Number(value)] conversion. *)
Definition Number (v : JsValue GuildMember) : float :=
  match v with
  | JUndefined => nan
  | JNull => 0%float
  | JBoolean b => if b then 1%float else 0%float
  | JNumber n => n
  | JString s => StringToNumber s
  | _ => ObjectToNumber v
  end.

(** A method that touches nothing outside its arguments. *)
Definition pure (c : Completion GuildMember) : Callback World GuildMember :=
  fun w => (c, w).

Definition message (this : nat) (msg _ : JsValue GuildMember) :
    Callback World GuildMember :=
  pure (Return msg).

Definition string (this : nat) (msg arg : JsValue GuildMember) :
    Callback World GuildMember :=
  pure (Return arg).

(** On a value that is not a string and is not falsy, [mention.startsWith]
    is not a function. *)
Definition getUserIDByMention (mention : JsValue GuildMember) :
    Completion GuildMember :=
  match mention with
  | JString s =>
      if String.eqb s EmptyString then Return (JUndefined)
      else if Js.startsWith s "<@" && Js.endsWith s ">" then
        let mention := Js.slice_between 2 1 s in
        Return (JString (if Js.startsWith mention "!"
                           then Js.slice 1 mention else mention))
      else Return (JUndefined)
  | v =>
      if truthy v
      then Throw (JError "mention.startsWith is not a function")
      else Return (JUndefined)
  end.

Definition user (this : nat) (msg value : JsValue GuildMember) :
    Callback World GuildMember :=
  pure (match getUserIDByMention value with
        | Throw e => Throw e
        | Return id =>
            if negb (truthy id) then Return (JNull)
            else match id with
                 | JString id =>
                     match users_cache id with
                     | Some u => Return (JObject u)
                     | None => Return (JNull)
                     end
                 | _ => Return (JNull)
                 end
        end).

Definition member (this : nat) (msg value : JsValue GuildMember) :
    Callback World GuildMember :=
  pure (match getUserIDByMention value with
        | Throw e => Throw e
        | Return id =>
            if negb (truthy id) then Return (JUndefined)
            else match id, msg with
                 | JString id, JMessage m =>
                     match guild m with
                     | Some g =>
                         match members_cache g id with
                         | Some u => Return (JObject u)
                         | None => Return (JUndefined)
                         end
                     | None => Return (JUndefined)
                     end
                 | _, JUndefined =>
                     Throw (JError "Cannot read properties of undefined (reading 'guild')")
                 | _, JNull =>
                     Throw (JError "Cannot read properties of null (reading 'guild')")
                 | _, _ => Return (JUndefined)
                 end
        end).

Definition number (this : nat) (msg value : JsValue GuildMember) :
    Callback World GuildMember :=
  pure (let n := Number value in
        Return (if is_nan n then JUndefined else JNumber n)).

End Converters.

End BuiltinCommandConverters.

(** ** Stages of a text dispatch

    The definitions the statements below use to say how far a dispatch has
    come: the awaited result of a user-supplied function, the part of
    [onMessage] before the argument loop, and the turns of the loop. *)

Section Stages.

Variable World : Type.
Variable GuildMember : Type.
Variable Permissions : Type.
Variable PermissionResolvable : Type.
Variable Options : Type.
Variable permissionsIn : GuildMember -> string -> Permissions.
Variable has : Permissions -> PermissionResolvable -> bool.

Local Abbreviation Callback' := (Callback World GuildMember).
Local Abbreviation State' := (State World GuildMember PermissionResolvable Options).
Local Abbreviation Command' := (Command World GuildMember PermissionResolvable).
Local Abbreviation M' := (M World GuildMember PermissionResolvable Options).

(** The awaited result of calling [f] in the world [w], and the world it
    leaves. *)
Definition settle (f : Callback') (w : World) :
    Awaited GuildMember (JsValue GuildMember) * World :=
  let (c, w') := f w in
  (match c with
   | Throw e => Raised e
   | Return (JPromise (Fulfilled x)) => Got x
   | Return (JPromise (Rejected e)) => Raised e
   | Return (JPromise Pending) => Never
   | Return v => Got v
   end, w').

(** The state with another world and the same trace. *)
Definition with_world (s : State') (w : World) : State' :=
  {| world := w; trace := trace s |}.

(** The state after one more action of the dispatcher. *)
Definition with_action (s : State')
    (a : Action World GuildMember PermissionResolvable Options) : State' :=
  {| world := world s; trace := trace s ++ [a] |}.

Variable client : CommandClient World GuildMember PermissionResolvable Options.
Variable msg : Message GuildMember.

(** Lines 24-92 of [onMessage]: everything before the argument loop. *)
Definition preamble : M' (string * Command' * list string) :=
  r <- resolve client msg ;;
  let '(prefix, cmd, tokens) := r in
  gate permissionsIn has client msg cmd ;;
  runChecks msg cmd (checks cmd) ;;
  ret r.

(** Lines 93-159 of [onMessage], entered at a turn of the argument loop. *)
Definition fromLoop (prefix : string) (cmd : Command') (i : nat)
    (commandArgs : list Argument) (args : list string)
    (parsedArgs : list (JsValue GuildMember)) : M' unit :=
  parsedArgs <- convertArgs client msg cmd i commandArgs args parsedArgs ;;
  invoke msg prefix cmd parsedArgs.

(** [executeArgs[0]]: a [Context] when the handler uses one, else the
    message. *)
Definition contextOrMessage (prefix : string) (cmd : Command') : JsValue GuildMember :=
  if usesCtx cmd then JContext msg prefix else JMessage msg.

(** How a dispatch ends whose argument loop is over with [parsedArgs], in
    the world [w] and with the trace of [s]: the handler is called, and
    what the call throws is emitted. *)
Definition handlerCalled (s : State') (prefix : string) (cmd : Command')
    (w : World) (parsedArgs : list (JsValue GuildMember)) :
    Outcome GuildMember * State' :=
  let executeArgs := contextOrMessage prefix cmd :: parsedArgs in
  match execute cmd (module cmd) executeArgs w with
  | (Return _, w') =>
      (Resolved, {| world := w'; trace := trace s ++ [Execute _ cmd executeArgs] |})
  | (Throw e, w') =>
      (Resolved, {| world := w';
                    trace := trace s ++ [Execute _ cmd executeArgs;
                                         EmitCommandError (Thrown e) msg cmd] |})
  end.

(** A point of the argument loop: the index and the parameters still to
    come, the tokens not yet consumed, the values so far, the state. *)
Record LoopPoint := {
  at_index : nat;
  at_params : list Argument;
  at_tokens : list string;
  at_parsed : list (JsValue GuildMember);
  at_state : State'
}.

(** [LoopReaches cmd p q]: the loop, at [p], comes to [q] through turns
    that each end in [continue] or fall through to the next turn. *)
Inductive LoopReaches (cmd : Command') : LoopPoint -> LoopPoint -> Prop :=
| reach_refl : forall p, LoopReaches cmd p p
| reach_turn : forall i arg more args parsedArgs s args' parsedArgs' s' q,
    convertArg client msg cmd i arg args parsedArgs s
      = Next (Continue args' parsedArgs') s' ->
    LoopReaches cmd {| at_index := S i; at_params := more; at_tokens := args';
                       at_parsed := parsedArgs'; at_state := s' |} q ->
    LoopReaches cmd {| at_index := i; at_params := arg :: more; at_tokens := args;
                       at_parsed := parsedArgs; at_state := s |} q.

(** The dispatch of [msg] from the state [s] resolves [cmd] under [prefix],
    passes the gate and the checks, and its argument loop comes to the
    point [q]. *)
Definition AtParameter (s : State') (prefix : string) (cmd : Command')
    (q : LoopPoint) : Prop :=
  exists tokens s1,
    preamble s = Next (prefix, cmd, tokens) s1 /\
    LoopReaches cmd {| at_index := 0; at_params := args cmd; at_tokens := tokens;
                       at_parsed := []; at_state := s1 |} q.

End Stages.

(** ** A small bot, to run the listeners on *)

Module Bot.

(** The world counts the calls of user-supplied functions; a member is given
    by the permission level it has in every channel, and a command requires
    a level. *)
Definition permissionsIn (m : nat) (channel : String.string) : nat := m.
Definition has (p required : nat) : bool := (required <=? p)%nat.

Definition Value := JsValue nat.
Definition Fn := Callback nat nat.

Definition returns (v : Value) : Fn := fun w => (Return v, S w).
Definition throws (e : Value) : Fn := fun w => (Throw e, S w).

Definition param (t : TypeTag) : Argument :=
  {| type := t; optional := false; rest := false |}.
Definition optional_param (t : TypeTag) : Argument :=
  {| type := t; optional := true; rest := false |}.
Definition rest_param : Argument :=
  {| type := TString; optional := false; rest := true |}.

Definition command (name : String.string) (aliases : list String.string)
    (args : list Argument) (checks : list (Message nat -> Fn))
    (execute : list Value -> Fn) : Command nat nat nat :=
  {| name := name; aliases := aliases; ownerOnly := false;
     clientPermissions := 1; checks := checks; args := args;
     usesCtx := false; execute := fun _ => execute; module := 0 |}.

Definition ok : list Value -> Fn := fun _ => returns JUndefined.

Definition ping := command "ping" ["p"] [] [] ok.
Definition say := command "say" [] [rest_param] [] ok.
Definition add := command "add" [] [param TNumber; param TNumber] [] ok.
Definition pair := command "pair" [] [param TString; optional_param TString] [] ok.
Definition greet := command "greet" [] [optional_param TString] [] ok.
Definition guarded :=
  command "guarded" [] [] [fun _ => throws (JError "boom")] ok.
Definition denied :=
  command "denied" [] [] [fun _ => returns (JBoolean false)] ok.
Definition crash :=
  command "crash" [] [] [] (fun _ => throws (JError "boom")).
Definition crashLater :=
  command "crashLater" [] [] []
    (fun _ => returns (JPromise (Rejected (JError "boom")))).

(** A converter of the application for [Number], taking the token first:
    decimal digits of one-digit numbers are enough here. *)
Definition digit (v _ : Value) : Fn :=
  returns (match v with
           | JString "0" => JNumber 0%float
           | JString "3" => JNumber 3%float
           | JString "7" => JNumber 7%float
           | _ => JUndefined
           end).

Definition digitConverter : ArgumentConverter nat nat :=
  {| conv_type := TNumber; convert := fun _ => digit; conv_module := 0 |}.

(** [Number] of a one-digit string, and of an object: the platform's
    classes print as their numeric id (the message here has id 7). *)
Definition StringToNumber (s : String.string) : float :=
  if String.eqb s "0" then 0%float
  else if String.eqb s "3" then 3%float
  else if String.eqb s "7" then 7%float
  else nan.
Definition ObjectToNumber (v : Value) : float :=
  match v with
  | JMessage _ => 7%float
  | _ => nan
  end.

(** The built-in [number] method registered for [Number]. *)
Definition numberConverter : ArgumentConverter nat nat :=
  {| conv_type := TNumber;
     convert := BuiltinCommandConverters.number StringToNumber ObjectToNumber;
     conv_module := 1 |}.

Definition square := command "square" [] [param TNumber] [] ok.

Definition hello : SlashCommand nat nat nat unit :=
  {| s_name := "hello"; s_ownerOnly := true; s_clientPermissions := 1;
     s_execute := fun _ _ _ => returns JUndefined; s_module := 0 |}.

Definition helloLater : SlashCommand nat nat nat unit :=
  {| s_name := "later"; s_ownerOnly := false; s_clientPermissions := 1;
     s_execute := fun _ _ _ => returns (JPromise (Rejected (JError "boom")));
     s_module := 0 |}.

Definition client (converters : list (ArgumentConverter nat nat)) :
    CommandClient nat nat nat unit :=
  {| allowSelf := false; allowBots := false; prefix := PrefixString _ _ "!";
     client_user_id := "1"; owners := ["42"];
     commandList := [ping; say; add; pair; greet; guarded; denied; crash;
                     crashLater; square];
     argConverterList := converters;
     slashCommands_guild := GuildString "100";
     slashCommandList := [hello; helloLater] |}.

Definition message (text : String.string) : Message nat :=
  {| author_id := "42"; author_bot := false; content := text;
     guild := Some {| me := Some 1 |}; member := Some 1;
     channel_id := "general" |}.

(** An interaction by a user who is no owner, where neither the client nor
    the member has the permission the command requires. *)
Definition slash (name : String.string) (level : nat) : Interaction nat unit :=
  {| guildId := Some "100"; isCommand := true; command_name := name;
     i_guild := Some {| me := Some level |}; i_member := Some level;
     i_channel_id := "general"; user_id := "7"; options := tt |}.

Definition start : State nat nat nat unit := {| world := 0; trace := [] |}.

Definition text (converters : list (ArgumentConverter nat nat))
    (content : String.string) : Outcome nat * State nat nat nat unit :=
  run (onMessage permissionsIn has (client converters) (message content)) start.

Definition command_interaction (name : String.string) (level : nat) :
    Outcome nat * State nat nat nat unit :=
  run (interaction permissionsIn has (client []) (slash name level)) start.

End Bot.

(** ** More of the bot: other clients, authors and converters *)

Module Town.

Import Bot.

Definition secret : Command nat nat nat :=
  {| name := "secret"; aliases := []; ownerOnly := true;
     clientPermissions := 1; checks := []; args := [];
     usesCtx := true; execute := fun _ => ok; module := 0 |}.
Definition quote := command "quote" [] [param TMessage] [] ok.
Definition kick := command "kick" [] [param TUser] [] ok.

(** The caches know one user and one member, under the id [42]. *)
Definition users (id : String.string) : option nat :=
  if String.eqb id "42" then Some 0 else None.
Definition members (g : Guild nat) (id : String.string) : option nat :=
  if String.eqb id "42" then Some 1 else None.

Definition messageConverter : ArgumentConverter nat nat :=
  {| conv_type := TMessage;
     convert := @BuiltinCommandConverters.message nat nat;
     conv_module := 1 |}.
Definition userConverter : ArgumentConverter nat nat :=
  {| conv_type := TUser;
     convert := BuiltinCommandConverters.user users;
     conv_module := 1 |}.
Definition failingConverter : ArgumentConverter nat nat :=
  {| conv_type := TNumber;
     convert := fun _ _ _ => throws (JError "not a number");
     conv_module := 0 |}.
Definition pendingConverter : ArgumentConverter nat nat :=
  {| conv_type := TNumber;
     convert := fun _ _ _ => returns (JPromise Pending);
     conv_module := 0 |}.

Definition bang : Prefix nat nat := PrefixString nat nat "!".
(** [remind(when?: string, ...what?: rest)]: an optional parameter, then an
    optional [rest] parameter. *)
Definition remind :=
  command "remind" []
    [optional_param TString; {| type := TString; optional := true; rest := true |}]
    [] ok.

(** A prefix computed for each message. *)
Definition askPrefix : Prefix nat nat :=
  PrefixFunction (fun _ w => (Got "?", S w)).

Definition brokenPrefix : Prefix nat nat :=
  PrefixFunction (fun _ w => (Raised (JError "no prefix"), S w)).

Definition town (prefix : Prefix nat nat) (guild : GuildOption)
    (converters : list (ArgumentConverter nat nat)) :
    CommandClient nat nat nat unit :=
  {| allowSelf := false; allowBots := false; prefix := prefix;
     client_user_id := "1"; owners := ["42"];
     commandList := [secret; quote; kick; say; pair; square; remind];
     argConverterList := converters;
     slashCommands_guild := guild;
     slashCommandList := [hello; helloLater] |}.

(** A message of the author with the given id, whose permission level is
    also that of the client where it was sent. *)
Definition sent (author : String.string) (bot : bool) (level : nat)
    (text : String.string) : Message nat :=
  {| author_id := author; author_bot := bot; content := text;
     guild := Some {| me := Some level |}; member := Some level;
     channel_id := "general" |}.

Definition slashIn (guild : option String.string) (name : String.string) :
    Interaction nat unit :=
  {| guildId := guild; isCommand := true; command_name := name;
     i_guild := Some {| me := Some 1 |}; i_member := Some 1;
     i_channel_id := "general"; user_id := "7"; options := tt |}.

Definition hears (c : CommandClient nat nat nat unit) (m : Message nat) :
    Outcome nat * State nat nat nat unit :=
  run (onMessage permissionsIn has c m) start.

Definition receives (c : CommandClient nat nat nat unit) (i : Interaction nat unit) :
    Outcome nat * State nat nat nat unit :=
  run (interaction permissionsIn has c i) start.

End Town.

(** * Properties of the dispatch pipeline *)

Section Properties.

Variable World : Type.
Variable GuildMember : Type.
Variable Permissions : Type.
Variable PermissionResolvable : Type.
Variable Options : Type.
Variable permissionsIn : GuildMember -> string -> Permissions.
Variable has : Permissions -> PermissionResolvable -> bool.

Local Abbreviation Callback' := (Callback World GuildMember).
Local Abbreviation State' := (State World GuildMember PermissionResolvable Options).
Local Abbreviation Command' := (Command World GuildMember PermissionResolvable).
Local Abbreviation Client' := (CommandClient World GuildMember PermissionResolvable Options).
Local Abbreviation M' := (M World GuildMember PermissionResolvable Options).

(** *** The monad *)

Lemma bind_Next (A B : Type) (m : M' A) (k : A -> M' B) (s s' : State') (a : A) :
  m s = Next a s' -> bind m k s = k a s'.
Proof. intros H. unfold bind. rewrite H. reflexivity. Qed.

Lemma bind_Stop (A B : Type) (m : M' A) (k : A -> M' B) (s s' : State')
    (o : Outcome GuildMember) :
  m s = Stop o s' -> bind m k s = Stop o s'.
Proof. intros H. unfold bind. rewrite H. reflexivity. Qed.

Lemma bind_assoc (A B C : Type) (m : M' A) (k : A -> M' B) (h : B -> M' C)
    (s : State') :
  bind (bind m k) h s = bind m (fun a => bind (k a) h) s.
Proof. unfold bind. destruct (m s); reflexivity. Qed.

Lemma with_world_same (s : State') : with_world s (world s) = s.
Proof. destruct s; reflexivity. Qed.

(** [await f(...)] in terms of the awaited result. *)
Lemma awaitCall_settle (f : Callback') (s : State') :
  awaitCall f s =
  match settle f (world s) with
  | (Got x, w) => Next (Return x) (with_world s w)
  | (Raised e, w) => Next (Throw e) (with_world s w)
  | (Never, w) => Stop Suspended (with_world s w)
  end.
Proof.
  unfold awaitCall, settle, bind, call, await, ret, with_world.
  destruct (f (world s)) as [[v | e] w]; [ | reflexivity ].
  destruct v as [ | | | | | | | | | [ | | ] ]; reflexivity.
Qed.

(** *** Stages that go on leave the trace as it is *)

Ltac chase :=
  repeat match goal with
         | H : Stop _ _ = Next _ _ |- _ => discriminate H
         | H : Next _ _ = Next _ _ |- _ => inversion H; subst; clear H
         | H : (_, _) = (_, _) |- _ => inversion H; subst; clear H
         | H : context [if ?b then _ else _] |- _ => destruct b eqn:?
         | H : context [match ?x with _ => _ end] |- _ => destruct x eqn:?
         end.

Variable client : Client'.
Variable msg : Message GuildMember.

Lemma resolvePrefix_trace (s s' : State') (p : string) :
  resolvePrefix client msg s = Next p s' -> trace s' = trace s.
Proof.
  unfold resolvePrefix, ret. intros H. chase; reflexivity.
Qed.

Lemma resolve_trace (s s' : State') r :
  resolve client msg s = Next r s' -> trace s' = trace s.
Proof.
  unfold resolve, return_. intros H.
  destruct (negb (allowSelf client) && _); [ discriminate | ].
  destruct (negb (allowBots client) && _); [ discriminate | ].
  unfold bind in H.
  destruct (resolvePrefix client msg s) as [p s1 | ] eqn:Hp; [ | discriminate ].
  apply resolvePrefix_trace in Hp. unfold ret in H. chase. exact Hp.
Qed.

Lemma gate_Next (cmd : Command') (s s' : State') :
  gate permissionsIn has client msg cmd s = Next tt s' -> s' = s.
Proof.
  unfold gate, bind, emit, return_, ret. intros H. chase. reflexivity.
Qed.

Lemma runChecks_trace (cmd : Command') (cs : list (Message GuildMember -> Callback'))
    (s s' : State') :
  runChecks msg cmd cs s = Next tt s' -> trace s' = trace s.
Proof.
  revert s. induction cs as [ | check more IH]; intros s H; simpl in H.
  - unfold ret in H. chase. reflexivity.
  - unfold bind in H. rewrite awaitCall_settle in H.
    destruct (settle (check msg) (world s)) as [[r | e | ] w]; simpl in H.
    + destruct (negb (truthy r)).
      * unfold emit, return_ in H. discriminate.
      * apply IH in H. exact H.
    + discriminate.
    + discriminate.
Qed.

Lemma convertArg_trace (cmd : Command') (i : nat) (arg : Argument)
    (args : list string) (parsedArgs : list (JsValue GuildMember))
    (s s' : State') ctl :
  convertArg client msg cmd i arg args parsedArgs s = Next ctl s' ->
  trace s' = trace s.
Proof.
  unfold convertArg. destruct (Js.shift args) as [v args'].
  destruct (rest arg); [ unfold ret; intros H; chase; reflexivity | ].
  destruct (negb (optional arg) && Js.not_str v);
    [ unfold bind, emit, return_; intros H; discriminate | ].
  destruct (optional arg && Js.not_str v);
    [ unfold ret; intros H; chase; reflexivity | ].
  destruct (TypeTag_eqb (type arg) TString);
    [ unfold ret; intros H; chase; reflexivity | ].
  destruct (find _ (argConverterList client)) as [converter | ];
    [ | unfold bind, emit, return_; intros H; discriminate ].
  unfold bind. rewrite awaitCall_settle.
  destruct (settle _ (world s)) as [[r | e | ] w]; simpl.
  - destruct (negb (truthy r)); unfold emit, return_, ret; intros H; chase.
    reflexivity.
  - unfold emit, return_. intros H. discriminate.
  - intros H. discriminate.
Qed.

Lemma LoopReaches_trace (cmd : Command') p q :
  LoopReaches client msg cmd p q -> trace (at_state q) = trace (at_state p).
Proof.
  induction 1 as [ | i arg more args parsedArgs s args' parsedArgs' s' q Hturn _ IH].
  - reflexivity.
  - simpl in *. rewrite IH. eapply convertArg_trace. exact Hturn.
Qed.

Lemma preamble_trace (s s1 : State') r :
  preamble permissionsIn has client msg s = Next r s1 -> trace s1 = trace s.
Proof.
  unfold preamble, bind. intros H.
  destruct (resolve client msg s) as [[[prefix cmd] tokens] s0 | ] eqn:Hr;
    [ | discriminate ].
  apply resolve_trace in Hr.
  destruct (gate permissionsIn has client msg cmd s0) as [[] s0' | ] eqn:Hg;
    [ | discriminate ].
  apply gate_Next in Hg. subst s0'.
  destruct (runChecks msg cmd (checks cmd) s0) as [[] s0' | ] eqn:Hc;
    [ | discriminate ].
  apply runChecks_trace in Hc. unfold ret in H. chase. congruence.
Qed.

(** *** From the listener to a turn of its argument loop *)

Lemma onMessage_fromLoop (s s1 : State') prefix cmd tokens :
  preamble permissionsIn has client msg s = Next (prefix, cmd, tokens) s1 ->
  onMessage permissionsIn has client msg s
  = fromLoop client msg prefix cmd 0 (args cmd) tokens [] s1.
Proof.
  unfold preamble, onMessage, fromLoop, bind. intros H.
  destruct (resolve client msg s) as [[[prefix' cmd'] tokens'] s0 | ];
    [ | discriminate ].
  destruct (gate permissionsIn has client msg cmd' s0) as [[] s0' | ];
    [ | discriminate ].
  destruct (runChecks msg cmd' (checks cmd') s0') as [[] s0'' | ];
    [ | discriminate ].
  unfold ret in H. inversion H; subst. reflexivity.
Qed.

Lemma fromLoop_reaches prefix (cmd : Command') p q :
  LoopReaches client msg cmd p q ->
  fromLoop client msg prefix cmd (at_index p) (at_params p) (at_tokens p)
    (at_parsed p) (at_state p)
  = fromLoop client msg prefix cmd (at_index q) (at_params q) (at_tokens q)
      (at_parsed q) (at_state q).
Proof.
  induction 1 as [ | i arg more args parsedArgs s args' parsedArgs' s' q Hturn _ IH].
  - reflexivity.
  - rewrite <- IH. simpl. unfold fromLoop at 1. simpl.
    rewrite bind_assoc. erewrite bind_Next by exact Hturn. reflexivity.
Qed.

(** A dispatch that comes to a point of the argument loop goes on from
    there, and has emitted nothing and called no handler so far. *)
Lemma dispatch_at_parameter (s : State') prefix (cmd : Command') q :
  AtParameter permissionsIn has client msg s prefix cmd q ->
  onMessage permissionsIn has client msg s
  = fromLoop client msg prefix cmd (at_index q) (at_params q) (at_tokens q)
      (at_parsed q) (at_state q)
  /\ trace (at_state q) = trace s.
Proof.
  intros (tokens & s1 & Hpre & Hreach). split.
  - erewrite onMessage_fromLoop by exact Hpre.
    apply (fromLoop_reaches prefix) in Hreach. exact Hreach.
  - apply LoopReaches_trace in Hreach. apply preamble_trace in Hpre.
    simpl in Hreach. congruence.
Qed.

(** One turn of the loop, seen from [fromLoop]. *)
Lemma fromLoop_turn prefix (cmd : Command') i arg more args parsedArgs (s : State') :
  fromLoop client msg prefix cmd i (arg :: more) args parsedArgs s
  = match convertArg client msg cmd i arg args parsedArgs s with
    | Next (Continue args' parsedArgs') s' =>
        fromLoop client msg prefix cmd (S i) more args' parsedArgs' s'
    | Next (Break parsedArgs') s' => invoke msg prefix cmd parsedArgs' s'
    | Stop o s' => Stop o s'
    end.
Proof.
  unfold fromLoop. simpl. unfold bind.
  destruct (convertArg client msg cmd i arg args parsedArgs s) as [[? ? | ?] ? | ];
    reflexivity.
Qed.

(** *** The handler call *)

Lemma run_invoke (s s2 : State') prefix (cmd : Command') parsedArgs :
  trace s2 = trace s ->
  run (invoke msg prefix cmd parsedArgs) s2
  = handlerCalled msg s prefix cmd (world s2) parsedArgs.
Proof.
  intros Ht. unfold run, invoke, handlerCalled, contextOrMessage, bind, emit, call, ret.
  simpl.
  destruct (execute cmd (module cmd) _ (world s2)) as [[v | e] w']; simpl;
    rewrite Ht; [ reflexivity | ].
  rewrite <- app_assoc. reflexivity.
Qed.

(** *** Facts on the runtime fragments *)

Lemma TypeTag_eqb_eq (a b : TypeTag) : TypeTag_eqb a b = true <-> a = b.
Proof.
  split.
  - destruct a, b; simpl; intros H; try discriminate; try reflexivity.
    apply Nat.eqb_eq in H. congruence.
  - intros <-. destruct a; simpl; try reflexivity. apply Nat.eqb_refl.
Qed.

Lemma TypeTag_eqb_neq (a b : TypeTag) : a <> b -> TypeTag_eqb a b = false.
Proof.
  intros H. destruct (TypeTag_eqb a b) eqn:E; [ | reflexivity ].
  apply TypeTag_eqb_eq in E. contradiction.
Qed.

Lemma not_str_nonempty (v : string) : v <> EmptyString -> Js.not_str (Some v) = false.
Proof. intros H. simpl. apply String.eqb_neq. exact H. Qed.

(** [[v, ...args].join(' ')] after [v = args.shift()] joins the tokens that
    were there before the shift. *)
Lemma join_shift (args : list string) :
  (let (v, args') := Js.shift args in Js.join " " (v :: map Some args'))
  = String.concat " " args.
Proof.
  destruct args as [ | x l]; [ reflexivity | ].
  unfold Js.shift, Js.join. cbn [map]. rewrite map_map, map_id. reflexivity.
Qed.

Lemma set_index_length (A : Type) (undef v : A) (a : list A) (i : nat) :
  length (Js.set_index undef a i v) = Nat.max (length a) (S i).
Proof.
  revert a. induction i as [ | i IH]; intros [ | x a]; simpl; rewrite ?IH; simpl; lia.
Qed.

Lemma split_nonempty (sep : ascii) (a : string) : Js.split sep a <> [].
Proof.
  destruct a as [ | c a]; simpl; [ discriminate | ].
  destruct (Ascii.eqb c sep); [ discriminate | ].
  destruct (Js.split sep a); discriminate.
Qed.

(** [s.split(' ')] cuts at every space. *)
Lemma split_app (a b : string) :
  Js.split " " (a ++ String " " b) = Js.split " " a ++ Js.split " " b.
Proof.
  induction a as [ | c a IH]; [ reflexivity | ].
  cbn [Js.split append]. rewrite IH.
  destruct (Ascii.eqb c " "); [ reflexivity | ].
  destruct (Js.split " " a) as [ | w ws] eqn:E; [ | reflexivity ].
  exfalso. exact (split_nonempty _ _ E).
Qed.

(** *** The values so far fill the slots before the current index *)

Lemma convertArg_length (cmd : Command') i arg args parsedArgs (s s' : State')
    args' parsedArgs' :
  convertArg client msg cmd i arg args parsedArgs s
    = Next (Continue args' parsedArgs') s' ->
  length parsedArgs = i -> length parsedArgs' = S i.
Proof.
  unfold convertArg. destruct (Js.shift args) as [v rest_args]. intros H Hlen.
  destruct (rest arg); [ unfold ret in H; discriminate | ].
  destruct (negb (optional arg) && Js.not_str v);
    [ unfold bind, emit, return_ in H; discriminate | ].
  destruct (optional arg && Js.not_str v); [ unfold ret in H; discriminate | ].
  destruct (TypeTag_eqb (type arg) TString).
  { unfold ret in H. inversion H; subst.
    rewrite set_index_length. lia. }
  destruct (find _ (argConverterList client)) as [converter | ];
    [ | unfold bind, emit, return_ in H; discriminate ].
  unfold bind in H. rewrite awaitCall_settle in H.
  destruct (settle _ (world s)) as [[r | e | ] w]; simpl in H; try discriminate.
  destruct (negb (truthy r)); unfold emit, return_, ret in H; [ discriminate | ].
  inversion H; subst. rewrite set_index_length. lia.
Qed.

Lemma LoopReaches_length (cmd : Command') p q :
  LoopReaches client msg cmd p q ->
  length (at_parsed p) = at_index p -> length (at_parsed q) = at_index q.
Proof.
  induction 1 as [ | i arg more args parsedArgs s args' parsedArgs' s' q Hturn _ IH];
    [ trivial | ].
  simpl in *. intros Hlen. apply IH. eapply convertArg_length; eassumption.
Qed.

Lemma AtParameter_length (s : State') prefix (cmd : Command') q :
  AtParameter permissionsIn has client msg s prefix cmd q ->
  length (at_parsed q) = at_index q.
Proof.
  intros (tokens & s1 & _ & Hreach).
  apply LoopReaches_length in Hreach; [ exact Hreach | reflexivity ].
Qed.

(** *** The argument loop *)

(** C1: when the argument loop of a text dispatch comes to a parameter that
    is not [rest], whose type is not [String] and for which a converter is
    registered, with a token to convert, and the awaited result [r] of the
    converter is falsy, then the listener emits the conversion-failure
    error on ['commandError'] and ends: the trace of the dispatch is that
    one emission, with no handler call.  The number [0] and the empty
    string are such results. *)
Theorem falsy_conversion_result_is_failure
    (s s2 : State') (prefix : string) (cmd : Command') (i : nat)
    (arg : Argument) (more : list Argument) (v : string) (args : list string)
    (parsedArgs : list (JsValue GuildMember))
    (converter : ArgumentConverter World GuildMember)
    (r : JsValue GuildMember) (w : World) :
  AtParameter permissionsIn has client msg s prefix cmd
    {| at_index := i; at_params := arg :: more; at_tokens := v :: args;
       at_parsed := parsedArgs; at_state := s2 |} ->
  rest arg = false ->
  v <> EmptyString ->
  type arg <> TString ->
  find (fun x => TypeTag_eqb (conv_type x) (type arg)) (argConverterList client)
    = Some converter ->
  settle (convert converter (conv_module converter) (JString v) (JMessage msg))
         (world s2) = (Got r, w) ->
  truthy r = false ->
  run (onMessage permissionsIn has client msg) s
  = (Resolved,
     {| world := w;
        trace := trace s ++ [EmitCommandError ConversionFailed msg cmd] |})
  /\ truthy (@JNumber GuildMember 0%float) = false
  /\ truthy (@JString GuildMember EmptyString) = false.
Proof.
  intros Hat Hrest Hv Htype Hfind Hsettle Hfalsy.
  destruct (dispatch_at_parameter Hat) as [Hrun Htrace]. simpl in Hrun, Htrace.
  split; [ | split; reflexivity ].
  unfold run. rewrite Hrun, fromLoop_turn.
  unfold convertArg. cbn [Js.shift]. rewrite Hrest.
  rewrite (not_str_nonempty Hv), !andb_false_r.
  rewrite (TypeTag_eqb_neq Htype), Hfind.
  unfold bind. rewrite awaitCall_settle. cbn [token]. rewrite Hsettle.
  rewrite Hfalsy. simpl. rewrite Htrace. reflexivity.
Qed.

(** C6: when the argument loop of a text dispatch comes to a parameter that
    is neither optional nor [rest] and no token is left, the listener emits
    the missing-argument error on ['commandError'] and ends: the trace of
    the dispatch is that one emission, with no handler call.  (With the
    parameters [required; optional] and no token after the name this
    happens at the first parameter, index [0].) *)
Theorem missing_required_argument
    (s s2 : State') (prefix : string) (cmd : Command') (i : nat)
    (arg : Argument) (more : list Argument)
    (parsedArgs : list (JsValue GuildMember)) :
  AtParameter permissionsIn has client msg s prefix cmd
    {| at_index := i; at_params := arg :: more; at_tokens := [];
       at_parsed := parsedArgs; at_state := s2 |} ->
  rest arg = false ->
  optional arg = false ->
  run (onMessage permissionsIn has client msg) s
  = (Resolved,
     {| world := world s2;
        trace := trace s ++ [EmitCommandError MissingArgument msg cmd] |}).
Proof.
  intros Hat Hrest Hopt.
  destruct (dispatch_at_parameter Hat) as [Hrun Htrace]. simpl in Hrun, Htrace.
  unfold run. rewrite Hrun, fromLoop_turn.
  unfold convertArg. cbn [Js.shift]. rewrite Hrest, Hopt. simpl.
  rewrite Htrace. reflexivity.
Qed.

(** C7 (as amended): when the argument loop of a text dispatch comes to an
    optional parameter that is not [rest] and no token is left, the loop stops there with
    no emission and the handler is called with the context or message and
    the values converted so far, which are those of the parameters before
    this one: this parameter and the later ones get no value.  (With the
    parameters [optional] and no token the handler is called with the
    message alone.) *)
Theorem missing_optional_argument
    (s s2 : State') (prefix : string) (cmd : Command') (i : nat)
    (arg : Argument) (more : list Argument)
    (parsedArgs : list (JsValue GuildMember)) :
  AtParameter permissionsIn has client msg s prefix cmd
    {| at_index := i; at_params := arg :: more; at_tokens := [];
       at_parsed := parsedArgs; at_state := s2 |} ->
  rest arg = false ->
  optional arg = true ->
  run (onMessage permissionsIn has client msg) s
  = handlerCalled msg s prefix cmd (world s2) parsedArgs
  /\ length parsedArgs = i.
Proof.
  intros Hat Hrest Hopt.
  destruct (dispatch_at_parameter Hat) as [Hrun Htrace]. simpl in Hrun, Htrace.
  split; [ | exact (AtParameter_length Hat) ].
  rewrite <- (@run_invoke s s2 prefix cmd parsedArgs Htrace).
  unfold run. rewrite Hrun, fromLoop_turn.
  unfold convertArg. cbn [Js.shift]. rewrite Hrest, Hopt. simpl.
  reflexivity.
Qed.

(** C5: when the argument loop of a text dispatch comes to a [rest]
    parameter, the value for it is one string, the tokens not yet consumed
    (the one this turn consumes and all after it) joined by single spaces;
    it is put after the values converted so far, no later parameter is
    looked at, and the handler is called.  (For [say(msg: rest)] and the
    tokens [hello], [world] the value is ["hello world"].) *)
Theorem rest_parameter_joins_tokens
    (s s2 : State') (prefix : string) (cmd : Command') (i : nat)
    (arg : Argument) (more : list Argument) (args : list string)
    (parsedArgs : list (JsValue GuildMember)) :
  AtParameter permissionsIn has client msg s prefix cmd
    {| at_index := i; at_params := arg :: more; at_tokens := args;
       at_parsed := parsedArgs; at_state := s2 |} ->
  rest arg = true ->
  run (onMessage permissionsIn has client msg) s
  = handlerCalled msg s prefix cmd (world s2)
      (parsedArgs ++ [JString (String.concat " " args)])
  /\ length parsedArgs = i.
Proof.
  intros Hat Hrest.
  destruct (dispatch_at_parameter Hat) as [Hrun Htrace]. simpl in Hrun, Htrace.
  split; [ | exact (AtParameter_length Hat) ].
  rewrite <- (@run_invoke s s2 prefix cmd _ Htrace).
  unfold run. rewrite Hrun, fromLoop_turn.
  unfold convertArg. rewrite <- (join_shift args).
  destruct (Js.shift args) as [v args']. rewrite Hrest. reflexivity.
Qed.

(** C10 (as amended, for parameters that are not [rest]): two adjacent
    spaces in the text give an empty token, and when the
    argument loop of a text dispatch comes to a parameter that is not
    [rest] with an empty token to consume, it does what it does with no
    token at all, whatever tokens follow: for a parameter that is not
    optional the listener emits the missing-argument error and ends; for an
    optional one the loop stops and the handler is called with the values
    converted so far. *)
Theorem empty_token_is_no_token
    (s s2 : State') (prefix : string) (cmd : Command') (i : nat)
    (arg : Argument) (more : list Argument) (args : list string)
    (parsedArgs : list (JsValue GuildMember)) :
  AtParameter permissionsIn has client msg s prefix cmd
    {| at_index := i; at_params := arg :: more; at_tokens := EmptyString :: args;
       at_parsed := parsedArgs; at_state := s2 |} ->
  rest arg = false ->
  convertArg client msg cmd i arg (EmptyString :: args) parsedArgs s2
  = convertArg client msg cmd i arg [] parsedArgs s2
  /\ run (onMessage permissionsIn has client msg) s
     = (if optional arg
        then handlerCalled msg s prefix cmd (world s2) parsedArgs
        else (Resolved,
              {| world := world s2;
                 trace := trace s ++ [EmitCommandError MissingArgument msg cmd] |}))
  /\ (forall a b : string,
        Js.split " " (a ++ "  " ++ b) = Js.split " " a ++ EmptyString :: Js.split " " b).
Proof.
  intros Hat Hrest.
  destruct (dispatch_at_parameter Hat) as [Hrun Htrace]. simpl in Hrun, Htrace.
  split; [ | split ].
  - unfold convertArg. cbn [Js.shift]. rewrite Hrest.
    destruct (optional arg); reflexivity.
  - unfold run. rewrite Hrun, fromLoop_turn.
    unfold convertArg. cbn [Js.shift]. rewrite Hrest.
    destruct (optional arg); simpl.
    + rewrite <- (@run_invoke s s2 prefix cmd parsedArgs Htrace). reflexivity.
    + rewrite Htrace. reflexivity.
  - intros a b. change (a ++ "  " ++ b)%string with (a ++ String " " (String " " b))%string.
    rewrite split_app. reflexivity.
Qed.

(** *** The checks *)

Lemma runChecks_app (cmd : Command') (pre l : list (Message GuildMember -> Callback'))
    (s s' : State') :
  runChecks msg cmd pre s = Next tt s' ->
  runChecks msg cmd (pre ++ l) s = runChecks msg cmd l s'.
Proof.
  revert s. induction pre as [ | check more IH]; intros s H; simpl in *.
  - unfold ret in H. inversion H. reflexivity.
  - unfold bind in *. rewrite awaitCall_settle in *.
    destruct (settle (check msg) (world s)) as [[r | e | ] w]; simpl in *;
      try discriminate.
    destruct (negb (truthy r)); [ unfold emit, return_ in H; discriminate | ].
    apply IH. exact H.
Qed.

Lemma onMessage_at_checks (s s0 s1 : State') prefix (cmd : Command') tokens :
  resolve client msg s = Next (prefix, cmd, tokens) s0 ->
  gate permissionsIn has client msg cmd s0 = Next tt s1 ->
  onMessage permissionsIn has client msg s
  = (runChecks msg cmd (checks cmd) ;;
     fromLoop client msg prefix cmd 0 (args cmd) tokens []) s1
  /\ trace s1 = trace s.
Proof.
  intros Hr Hg. split.
  - unfold onMessage, fromLoop, bind. rewrite Hr, Hg. reflexivity.
  - apply gate_Next in Hg. apply resolve_trace in Hr. congruence.
Qed.

(** C3: in a text dispatch that has resolved a command and passed the gate,
    let the checks before [check] pass and let the awaited call of [check]
    raise an exception (the call throws, or its promise is rejected).  Then
    the listener ends there: nothing is emitted and no handler is called,
    the trace is as it was.  When instead the awaited result of [check] is
    falsy, the listener emits [CheckFailedError] and ends. *)
Theorem throwing_check_aborts_silently
    (s s0 s1 s2 : State') (prefix : string) (cmd : Command') (tokens : list string)
    (pre post : list (Message GuildMember -> Callback'))
    (check : Message GuildMember -> Callback')
    (result : Awaited GuildMember (JsValue GuildMember)) (w : World) :
  resolve client msg s = Next (prefix, cmd, tokens) s0 ->
  gate permissionsIn has client msg cmd s0 = Next tt s1 ->
  checks cmd = pre ++ check :: post ->
  runChecks msg cmd pre s1 = Next tt s2 ->
  settle (check msg) (world s2) = (result, w) ->
  (forall e, result = Raised e ->
     run (onMessage permissionsIn has client msg) s
     = (Resolved, {| world := w; trace := trace s |}))
  /\ (forall r, result = Got r -> truthy r = false ->
       run (onMessage permissionsIn has client msg) s
       = (Resolved,
          {| world := w;
             trace := trace s ++ [EmitCommandError (CheckFailedError cmd) msg cmd] |})).
Proof.
  intros Hr Hg Hchecks Hpre Hsettle.
  destruct (@onMessage_at_checks s s0 s1 prefix cmd tokens Hr Hg) as [Hrun Ht1].
  pose proof (@runChecks_trace cmd pre s1 s2 Hpre) as Ht2.
  assert (Hstep : onMessage permissionsIn has client msg s
                  = (runChecks msg cmd (check :: post) ;;
                     fromLoop client msg prefix cmd 0 (args cmd) tokens []) s2).
  { rewrite Hrun, Hchecks. unfold bind at 1.
    rewrite (@runChecks_app cmd pre (check :: post) s1 s2 Hpre). reflexivity. }
  split.
  - intros e ->. unfold run. rewrite Hstep. cbn [runChecks].
    unfold bind. rewrite awaitCall_settle, Hsettle. simpl.
    unfold with_world. congruence.
  - intros r -> Hfalsy. unfold run. rewrite Hstep. cbn [runChecks].
    unfold bind. rewrite awaitCall_settle, Hsettle. simpl. rewrite Hfalsy. simpl.
    unfold with_world. simpl. congruence.
Qed.

(** *** The interaction listener *)

(** C2: in an interaction dispatch that has resolved a command, the gate
    asks for the permissions of the client first, then for those of the
    member, then for ownership.  When the client lacks the permissions the
    one emission is [MissingSlashClientPermissions], whatever the member's
    permissions are and whether or not the user is an owner; when the
    client has them and the member lacks them it is
    [MissingSlashUserPermissions]; the owner-only error comes only when
    both have them.  In each case the listener ends with no handler call. *)
Theorem interaction_gate_order
    (i : Interaction GuildMember Options) (s : State')
    (command : SlashCommand World GuildMember PermissionResolvable Options) :
  guild_mismatch client i s = Next false s ->
  isCommand i = true ->
  find (fun x => String.eqb (s_name x) (command_name i)) (slashCommandList client)
    = Some command ->
  (lacks permissionsIn has (guild_me (i_guild i)) (i_channel_id i)
         (s_clientPermissions command) = true ->
   run (interaction permissionsIn has client i) s
   = (Resolved,
      with_action s
        (EmitSlashCommandError
           (MissingSlashClientPermissions command (s_clientPermissions command) i)
           i (command_name i))))
  /\ (lacks permissionsIn has (guild_me (i_guild i)) (i_channel_id i)
             (s_clientPermissions command) = false ->
       lacks permissionsIn has (i_member i) (i_channel_id i)
             (s_clientPermissions command) = true ->
       run (interaction permissionsIn has client i) s
       = (Resolved,
          with_action s
            (EmitSlashCommandError
               (MissingSlashUserPermissions command (s_clientPermissions command) i)
               i (command_name i))))
  /\ (lacks permissionsIn has (guild_me (i_guild i)) (i_channel_id i)
             (s_clientPermissions command) = false ->
       lacks permissionsIn has (i_member i) (i_channel_id i)
             (s_clientPermissions command) = false ->
       s_ownerOnly command && negb (Js.includes (owners client) (user_id i)) = true ->
       run (interaction permissionsIn has client i) s
       = (Resolved,
          with_action s
            (EmitSlashCommandError (OwnerOnlySlashCommand command i)
               i (command_name i)))).
Proof.
  intros Hguild Hcmd Hfind.
  assert (Hrun : interaction permissionsIn has client i s
                 = (slashGate permissionsIn has client i command ;;
                    slashInvoke i command) s).
  { unfold interaction. unfold bind at 1. rewrite Hguild, Hcmd, Hfind. reflexivity. }
  unfold run. rewrite Hrun. unfold slashGate, bind, emit, return_, ret, with_action.
  repeat split.
  - intros ->. reflexivity.
  - intros -> ->. reflexivity.
  - intros -> -> ->. reflexivity.
Qed.

(** The interaction listener awaits the handler inside its [try]: an
    exception of the call, thrown or by rejection, is emitted. *)
Lemma slash_handler_exception_is_emitted
    (i : Interaction GuildMember Options) (s : State')
    (command : SlashCommand World GuildMember PermissionResolvable Options)
    (e : JsValue GuildMember) (w : World) :
  settle (s_execute command (s_module command) i (options i)) (world s)
    = (Raised e, w) ->
  run (slashInvoke i command) s
  = (Resolved,
     {| world := w;
        trace := trace s ++ [ExecuteSlash command i (options i);
                             EmitSlashCommandError (Thrown e) i (command_name i)] |}).
Proof.
  intros Hsettle. unfold run, slashInvoke, bind, emit. rewrite awaitCall_settle.
  simpl. rewrite Hsettle. simpl. rewrite <- app_assoc. reflexivity.
Qed.

(** The message listener does not await the handler: a promise it returns
    is dropped, also when it is rejected, and nothing is emitted. *)
Lemma text_handler_promise_is_dropped
    (s : State') (prefix : string) (cmd : Command') (w w' : World)
    (parsedArgs : list (JsValue GuildMember)) (p : Settlement GuildMember) :
  execute cmd (module cmd) (contextOrMessage msg prefix cmd :: parsedArgs) w
    = (Return (JPromise p), w') ->
  handlerCalled msg s prefix cmd w parsedArgs
  = (Resolved,
     {| world := w';
        trace := trace s ++ [Execute _ cmd (contextOrMessage msg prefix cmd :: parsedArgs)] |}).
Proof. intros H. unfold handlerCalled. rewrite H. reflexivity. Qed.

(** *** The command lookup *)

Lemma includes_In (a : list string) (x : string) :
  Js.includes a x = true <-> In x a.
Proof.
  unfold Js.includes. rewrite existsb_exists. split.
  - intros (y & Hin & Heq). apply String.eqb_eq in Heq. subst. exact Hin.
  - intros Hin. exists x. split; [ exact Hin | apply String.eqb_refl ].
Qed.

(** What the lookup compares: the names with both sides in lower case, the
    aliases in lower case with the token as it was typed. *)
Lemma matches_spec (command : string) (x : Command') :
  matches command x = true <->
  Js.toLowerCase (name x) = Js.toLowerCase command
  \/ In command (map Js.toLowerCase (aliases x)).
Proof.
  unfold matches. rewrite orb_true_iff, String.eqb_eq, includes_In. tauto.
Qed.

(** *** The built-in converters under the dispatcher's call *)

Section Builtin.

Variable StringToNumber : string -> float.
Variable ObjectToNumber : JsValue GuildMember -> float.

(** C9 (as amended): the argument loop calls a converter with the token
    first and the message second, and the built-in [number] method takes the
    message first and the value second.  So when the loop comes to a
    parameter of type [Number] served by the built-in method, [Number(...)]
    is applied to the message object: the awaited result is that number, or
    [undefined] when it is [NaN], whatever the token is.  The dispatch
    emits the conversion-failure error when that number is [NaN] or zero,
    and otherwise goes on with that number as the value of the parameter. *)
Theorem builtin_number_parses_the_message
    (s s2 : State') (prefix : string) (cmd : Command') (i : nat)
    (arg : Argument) (more : list Argument) (v : string) (args : list string)
    (parsedArgs : list (JsValue GuildMember))
    (converter : ArgumentConverter World GuildMember) :
  AtParameter permissionsIn has client msg s prefix cmd
    {| at_index := i; at_params := arg :: more; at_tokens := v :: args;
       at_parsed := parsedArgs; at_state := s2 |} ->
  rest arg = false ->
  v <> EmptyString ->
  type arg = TNumber ->
  find (fun x => TypeTag_eqb (conv_type x) (type arg)) (argConverterList client)
    = Some converter ->
  convert converter = BuiltinCommandConverters.number StringToNumber ObjectToNumber ->
  settle (convert converter (conv_module converter) (JString v) (JMessage msg))
         (world s2)
  = (Got (if is_nan (ObjectToNumber (JMessage msg)) then JUndefined
          else JNumber (ObjectToNumber (JMessage msg))),
     world s2)
  /\ run (onMessage permissionsIn has client msg) s
     = (if is_nan (ObjectToNumber (JMessage msg))
           || is_zero (ObjectToNumber (JMessage msg))
        then (Resolved,
              {| world := world s2;
                 trace := trace s ++ [EmitCommandError ConversionFailed msg cmd] |})
        else run (fromLoop client msg prefix cmd (S i) more args
                    (Js.set_index JUndefined parsedArgs i
                       (JNumber (ObjectToNumber (JMessage msg))))) s2).
Proof.
  intros Hat Hrest Hv Htype Hfind Hconv.
  destruct (dispatch_at_parameter Hat) as [Hrun Htrace]. simpl in Hrun, Htrace.
  assert (Hsettle :
    settle (convert converter (conv_module converter) (JString v) (JMessage msg))
           (world s2)
    = (Got (if is_nan (ObjectToNumber (JMessage msg)) then JUndefined
            else JNumber (ObjectToNumber (JMessage msg))),
       world s2)).
  { rewrite Hconv. unfold settle, BuiltinCommandConverters.number,
      BuiltinCommandConverters.pure, BuiltinCommandConverters.Number.
    destruct (is_nan (ObjectToNumber (JMessage msg))); reflexivity. }
  split; [ exact Hsettle | ].
  unfold run at 1. rewrite Hrun, fromLoop_turn.
  unfold convertArg. cbn [Js.shift]. rewrite Hrest.
  rewrite (not_str_nonempty Hv), !andb_false_r.
  rewrite Htype. cbn [TypeTag_eqb]. rewrite Htype in Hfind. rewrite Hfind.
  unfold bind. rewrite awaitCall_settle. cbn [token]. rewrite Hsettle.
  destruct (is_nan (ObjectToNumber (JMessage msg))) eqn:Hnan; simpl.
  - rewrite Htrace. reflexivity.
  - rewrite Hnan. simpl.
    destruct (is_zero (ObjectToNumber (JMessage msg))); simpl.
    + rewrite Htrace. reflexivity.
    + rewrite with_world_same. reflexivity.
Qed.

(** The other built-in methods under the same call: [message] gives back
    the token, [string] the message, and [user] and [member] throw on
    reading [startsWith] of the message. *)
Lemma builtins_as_called (this : nat) (v : string) (w : World)
    (users_cache : string -> option nat)
    (members_cache : Guild GuildMember -> string -> option nat) :
  BuiltinCommandConverters.message this (JString v) (JMessage msg) w
    = (Return (JString v), w)
  /\ BuiltinCommandConverters.string this (JString v) (JMessage msg) w
     = (Return (JMessage msg), w)
  /\ BuiltinCommandConverters.user users_cache this (JString v) (JMessage msg) w
     = (Throw (JError "mention.startsWith is not a function"), w)
  /\ BuiltinCommandConverters.member members_cache this (JString v) (JMessage msg) w
     = (Throw (JError "mention.startsWith is not a function"), w).
Proof. repeat split. Qed.

End Builtin.

(** * Further properties of the two listeners *)

(** *** Where a text dispatch can end *)

Lemma resolve_Stop (s s' : State') (o : Outcome GuildMember) :
  resolve client msg s = Stop o s' -> trace s' = trace s.
Proof.
  unfold resolve, return_. intros H.
  destruct (negb (allowSelf client) && _); [ inversion H; reflexivity | ].
  destruct (negb (allowBots client) && _); [ inversion H; reflexivity | ].
  unfold bind in H.
  destruct (resolvePrefix client msg s) as [p s1 | o1 s1] eqn:Hp.
  - apply resolvePrefix_trace in Hp. unfold ret in H.
    destruct (negb (Js.startsWith (content msg) p)); [ inversion H; subst; exact Hp | ].
    destruct (Js.shift _) as [[command | ] rest_tokens]; [ | inversion H; subst; exact Hp ].
    destruct (String.eqb command EmptyString); [ inversion H; subst; exact Hp | ].
    destruct (find _ _); [ discriminate | inversion H; subst; exact Hp ].
  - inversion H; subst. unfold resolvePrefix in Hp.
    destruct (prefix client) as [p | f]; [ discriminate | ].
    destruct (f msg (world s)) as [[p | e | ] w]; inversion Hp; reflexivity.
Qed.

Lemma resolve_registered (s s' : State') p (cmd : Command') tokens :
  resolve client msg s = Next (p, cmd, tokens) s' -> In cmd (commandList client).
Proof.
  unfold resolve, return_. intros H.
  destruct (negb (allowSelf client) && _); [ discriminate | ].
  destruct (negb (allowBots client) && _); [ discriminate | ].
  unfold bind in H.
  destruct (resolvePrefix client msg s) as [p1 s1 | ]; [ | discriminate ].
  destruct (negb (Js.startsWith (content msg) p1)); [ discriminate | ].
  destruct (Js.shift _) as [[command | ] rest_tokens]; [ | discriminate ].
  destruct (String.eqb command EmptyString); [ discriminate | ].
  destruct (find _ _) as [c | ] eqn:Hfind; [ | discriminate ].
  unfold ret in H. inversion H; subst.
  apply find_some in Hfind. tauto.
Qed.

Lemma gate_Stop (cmd : Command') (s s' : State') (o : Outcome GuildMember) :
  gate permissionsIn has client msg cmd s = Stop o s' ->
  o = Resolved /\ exists e, trace s' = trace s ++ [EmitCommandError e msg cmd].
Proof.
  unfold gate, bind, emit, return_, ret. intros H.
  destruct (ownerOnly cmd && _);
    [ inversion H; split; [ reflexivity | eexists; reflexivity ] | ].
  destruct (lacks _ _ (guild_me _) _ _);
    [ inversion H; split; [ reflexivity | eexists; reflexivity ] | ].
  destruct (lacks _ _ (member msg) _ _);
    [ inversion H; split; [ reflexivity | eexists; reflexivity ] | discriminate ].
Qed.

Lemma runChecks_Stop (cmd : Command') (cs : list (Message GuildMember -> Callback'))
    (s s' : State') (o : Outcome GuildMember) :
  runChecks msg cmd cs s = Stop o s' ->
  trace s' = trace s
  \/ (o = Resolved /\ exists e, trace s' = trace s ++ [EmitCommandError e msg cmd]).
Proof.
  revert s. induction cs as [ | check more IH]; intros s H; simpl in H.
  - discriminate.
  - unfold bind in H. rewrite awaitCall_settle in H.
    destruct (settle (check msg) (world s)) as [[r | e | ] w]; simpl in H.
    + destruct (negb (truthy r)).
      * unfold emit, return_ in H. inversion H. right.
        split; [ reflexivity | eexists; reflexivity ].
      * apply IH in H. exact H.
    + inversion H. left. reflexivity.
    + inversion H. left. reflexivity.
Qed.

Lemma convertArg_Stop (cmd : Command') i arg args parsedArgs (s s' : State')
    (o : Outcome GuildMember) :
  convertArg client msg cmd i arg args parsedArgs s = Stop o s' ->
  trace s' = trace s
  \/ (o = Resolved /\ exists e, trace s' = trace s ++ [EmitCommandError e msg cmd]).
Proof.
  unfold convertArg. destruct (Js.shift args) as [v rest_args]. intros H.
  destruct (rest arg); [ discriminate | ].
  destruct (negb (optional arg) && Js.not_str v).
  { inversion H. right. split; [ reflexivity | eexists; reflexivity ]. }
  destruct (optional arg && Js.not_str v); [ discriminate | ].
  destruct (TypeTag_eqb (type arg) TString); [ discriminate | ].
  destruct (find _ (argConverterList client)) as [converter | ].
  - unfold bind in H. rewrite awaitCall_settle in H.
    destruct (settle _ (world s)) as [[r | e | ] w]; simpl in H.
    + destruct (negb (truthy r)); [ | discriminate ].
      inversion H. right. split; [ reflexivity | eexists; reflexivity ].
    + inversion H. right. split; [ reflexivity | eexists; reflexivity ].
    + inversion H. left. reflexivity.
  - inversion H. right. split; [ reflexivity | eexists; reflexivity ].
Qed.

Lemma convertArg_Break (cmd : Command') i arg args parsedArgs (s s' : State')
    parsedArgs' :
  convertArg client msg cmd i arg args parsedArgs s = Next (Break parsedArgs') s' ->
  length parsedArgs' <= S (length parsedArgs).
Proof.
  unfold convertArg. destruct (Js.shift args) as [v rest_args]. intros H.
  destruct (rest arg).
  { inversion H. rewrite length_app. simpl. lia. }
  destruct (negb (optional arg) && Js.not_str v); [ discriminate | ].
  destruct (optional arg && Js.not_str v); [ inversion H; lia | ].
  destruct (TypeTag_eqb (type arg) TString); [ discriminate | ].
  destruct (find _ (argConverterList client)) as [converter | ]; [ | discriminate ].
  unfold bind in H. rewrite awaitCall_settle in H.
  destruct (settle _ (world s)) as [[r | e | ] w]; simpl in H; try discriminate.
  destruct (negb (truthy r)); discriminate.
Qed.

Lemma convertArgs_Next (cmd : Command') (commandArgs : list Argument) i args parsedArgs
    (s s' : State') parsedArgs' :
  convertArgs client msg cmd i commandArgs args parsedArgs s = Next parsedArgs' s' ->
  length parsedArgs = i ->
  trace s' = trace s /\ length parsedArgs' <= i + length commandArgs.
Proof.
  revert i args parsedArgs s.
  induction commandArgs as [ | arg more IH]; intros i args parsedArgs s H Hlen; simpl in H.
  - inversion H; subst. split; [ reflexivity | simpl; lia ].
  - unfold bind in H.
    destruct (convertArg client msg cmd i arg args parsedArgs s)
      as [[args1 parsed1 | parsed1] s1 | ] eqn:Hturn; [ | | discriminate ].
    + pose proof (convertArg_trace _ _ _ _ _ _ Hturn) as Ht.
      pose proof (@convertArg_length cmd i arg args parsedArgs s s1 args1 parsed1
                    Hturn Hlen) as Hl.
      destruct (IH _ _ _ _ H Hl) as [Ht' Hl']. split; [ congruence | simpl; lia ].
    + pose proof (convertArg_trace _ _ _ _ _ _ Hturn) as Ht.
      apply convertArg_Break in Hturn. inversion H; subst.
      split; [ exact Ht | simpl; lia ].
Qed.

Lemma convertArgs_Stop (cmd : Command') (commandArgs : list Argument) i args parsedArgs
    (s s' : State') (o : Outcome GuildMember) :
  convertArgs client msg cmd i commandArgs args parsedArgs s = Stop o s' ->
  trace s' = trace s
  \/ (o = Resolved /\ exists e, trace s' = trace s ++ [EmitCommandError e msg cmd]).
Proof.
  revert i args parsedArgs s.
  induction commandArgs as [ | arg more IH]; intros i args parsedArgs s H; simpl in H.
  - discriminate.
  - unfold bind in H.
    destruct (convertArg client msg cmd i arg args parsedArgs s)
      as [[args1 parsed1 | parsed1] s1 | o1 s1] eqn:Hturn.
    + pose proof (convertArg_trace _ _ _ _ _ _ Hturn) as Ht.
      apply IH in H. rewrite Ht in H. exact H.
    + discriminate.
    + inversion H; subst. eapply convertArg_Stop. exact Hturn.
Qed.

Lemma invoke_report (s : State') p (cmd : Command') parsedArgs :
  exists s',
    invoke msg p cmd parsedArgs s = Next tt s'
    /\ (trace s' = trace s ++ [Execute _ cmd (contextOrMessage msg p cmd :: parsedArgs)]
        \/ exists e,
             trace s' = trace s ++ [Execute _ cmd (contextOrMessage msg p cmd :: parsedArgs);
                                    EmitCommandError (Thrown e) msg cmd]).
Proof.
  unfold invoke, contextOrMessage, bind, emit, call, ret. simpl.
  destruct (execute cmd (module cmd) _ (world s)) as [[v | e] w]; simpl.
  - eexists. split; [ reflexivity | left; reflexivity ].
  - eexists. split; [ reflexivity | right; exists e ].
    simpl. rewrite <- app_assoc. reflexivity.
Qed.

(** Every way a text dispatch can end, by what it adds to the trace. *)
Lemma onMessage_report (s : State') :
  exists acts,
    trace (snd (run (onMessage permissionsIn has client msg) s)) = trace s ++ acts
    /\ (acts = []
        \/ (fst (run (onMessage permissionsIn has client msg) s) = Resolved
            /\ exists e cmd, acts = [EmitCommandError e msg cmd])
        \/ (fst (run (onMessage permissionsIn has client msg) s) = Resolved
            /\ exists p cmd parsedArgs,
                 In cmd (commandList client)
                 /\ length parsedArgs <= length (args cmd)
                 /\ (acts = [Execute _ cmd (contextOrMessage msg p cmd :: parsedArgs)]
                     \/ exists e,
                          acts = [Execute _ cmd (contextOrMessage msg p cmd :: parsedArgs);
                                  EmitCommandError (Thrown e) msg cmd]))).
Proof.
  unfold run, onMessage, bind.
  destruct (resolve client msg s) as [[[p cmd] tokens] s0 | o0 s0] eqn:Hr.
  2:{ apply resolve_Stop in Hr. exists []. simpl. rewrite app_nil_r. auto. }
  pose proof (resolve_registered _ Hr) as Hin. apply resolve_trace in Hr.
  destruct (gate permissionsIn has client msg cmd s0) as [[] s1 | o1 s1] eqn:Hg.
  2:{ apply gate_Stop in Hg. destruct Hg as [-> [e He]].
      exists [EmitCommandError e msg cmd]. simpl. split; [ congruence | ].
      right. left. eauto. }
  apply gate_Next in Hg. subst s1.
  destruct (runChecks msg cmd (checks cmd) s0) as [[] s2 | o2 s2] eqn:Hc.
  2:{ apply runChecks_Stop in Hc. destruct Hc as [Hc | [-> [e He]]].
      - exists []. simpl. rewrite app_nil_r. split; [ congruence | auto ].
      - exists [EmitCommandError e msg cmd]. simpl. split; [ congruence | ].
        right. left. eauto. }
  apply runChecks_trace in Hc.
  destruct (convertArgs client msg cmd 0 (args cmd) tokens [] s2)
    as [parsedArgs s3 | o3 s3] eqn:Ha.
  2:{ apply convertArgs_Stop in Ha. destruct Ha as [Ha | [-> [e He]]].
      - exists []. simpl. rewrite app_nil_r. split; [ congruence | auto ].
      - exists [EmitCommandError e msg cmd]. simpl. split; [ congruence | ].
        right. left. eauto. }
  apply convertArgs_Next in Ha; [ | reflexivity ]. destruct Ha as [Ha Hlen].
  destruct (invoke_report s3 p cmd parsedArgs) as (s4 & -> & Hcall). simpl.
  assert (Hs3 : trace s3 = trace s) by congruence. rewrite Hs3 in Hcall.
  destruct Hcall as [Hcall | [e Hcall]].
  - eexists. split; [ exact Hcall | ]. right. right. split; [ reflexivity | ].
    exists p, cmd, parsedArgs. auto.
  - eexists. split; [ exact Hcall | ]. right. right. split; [ reflexivity | ].
    exists p, cmd, parsedArgs. split; [ exact Hin | ]. split; [ exact Hlen | ].
    right. exists e. reflexivity.
Qed.

(** X1: every text dispatch adds to the trace nothing, or one emission on
    ['commandError'], or one handler call, or one handler call followed by
    the emission of what the call threw.  So a dispatch reports at most one
    error, calls at most one handler, and never calls a handler after it
    has reported an error. *)
Theorem text_dispatch_reports_once (s : State') :
  exists acts,
    trace (snd (run (onMessage permissionsIn has client msg) s)) = trace s ++ acts
    /\ (acts = []
        \/ (exists e cmd, acts = [EmitCommandError e msg cmd])
        \/ (exists cmd executeArgs, acts = [Execute _ cmd executeArgs])
        \/ (exists cmd executeArgs e,
              acts = [Execute _ cmd executeArgs; EmitCommandError (Thrown e) msg cmd])).
Proof.
  destruct (onMessage_report s) as (acts & Ht & Hshape).
  exists acts. split; [ exact Ht | ].
  destruct Hshape as [H | [[_ H] | [_ (p & cmd & parsedArgs & _ & _ & [H | [e H]])]]].
  - auto.
  - auto.
  - right. right. left. eauto.
  - right. right. right. eauto.
Qed.

(** X2: a handler call that a text dispatch adds to the trace is the call
    of a command of the registered list, with the context or the message
    first and then at most as many values as the command declares
    parameters. *)
Theorem handler_called_on_registered_command (s : State') (cmd : Command')
    (executeArgs : list (JsValue GuildMember)) :
  In (Execute _ cmd executeArgs)
     (trace (snd (run (onMessage permissionsIn has client msg) s))) ->
  In (Execute _ cmd executeArgs) (trace s)
  \/ (In cmd (commandList client)
      /\ exists p parsedArgs,
           executeArgs = contextOrMessage msg p cmd :: parsedArgs
           /\ length parsedArgs <= length (args cmd)).
Proof.
  destruct (onMessage_report s) as (acts & Ht & Hshape). rewrite Ht.
  intros Hin. apply in_app_or in Hin. destruct Hin as [Hin | Hin]; [ left; exact Hin | ].
  right.
  destruct Hshape as [-> | [[_ (e & c & ->)] | [_ (p & c & parsedArgs & Hreg & Hlen & Hacts)]]].
  - destruct Hin.
  - destruct Hin as [Hin | []]. discriminate.
  - assert (Heq : Execute Options c (contextOrMessage msg p c :: parsedArgs)
                  = Execute Options cmd executeArgs).
    { destruct Hacts as [-> | [e ->]].
      - destruct Hin as [Hin | []]. exact Hin.
      - destruct Hin as [Hin | [Hin | []]]; [ exact Hin | discriminate ]. }
    inversion Heq; subst. split; [ exact Hreg | eauto ].
Qed.

(** X3: a text listener whose promise is rejected or never settles has
    added nothing to the trace: it has emitted no error and called no
    handler. *)
Theorem unsettled_text_dispatch_adds_nothing (s : State') :
  fst (run (onMessage permissionsIn has client msg) s) <> Resolved ->
  trace (snd (run (onMessage permissionsIn has client msg) s)) = trace s.
Proof.
  intros Hout. destruct (onMessage_report s) as (acts & Ht & Hshape).
  destruct Hshape as [-> | [[H _] | [H _]]].
  - rewrite Ht. apply app_nil_r.
  - contradiction.
  - contradiction.
Qed.

(** *** The front of a text dispatch *)

(** X4: a message of the client itself when [allowSelf] is off, or of a bot
    when [allowBots] is off, is dropped at once: the listener resolves and
    the state is untouched (not even the prefix function is called). *)
Theorem filtered_message_is_dropped (s : State') :
  (allowSelf client = false /\ author_id msg = client_user_id client)
  \/ (allowBots client = false /\ author_bot msg = true) ->
  run (onMessage permissionsIn has client msg) s = (Resolved, s).
Proof.
  intros H. unfold run, onMessage, bind, resolve, return_.
  destruct H as [[Hself Hid] | [Hbots Hbot]].
  - rewrite Hself, Hid, String.eqb_refl. reflexivity.
  - rewrite Hbots, Hbot.
    destruct (negb (allowSelf client) && _); reflexivity.
Qed.

(** X5: when the prefix function raises an exception (it throws, or its
    promise is rejected), the listener's own promise is rejected with it:
    nothing is emitted on ['commandError'] and no command is looked up. *)
Theorem prefix_exception_rejects_listener (s : State')
    (f : Message GuildMember -> World -> Awaited GuildMember string * World)
    (e : JsValue GuildMember) (w : World) :
  negb (allowSelf client) && String.eqb (author_id msg) (client_user_id client) = false ->
  negb (allowBots client) && author_bot msg = false ->
  prefix client = PrefixFunction f ->
  f msg (world s) = (Raised e, w) ->
  run (onMessage permissionsIn has client msg) s = (RejectedWith e, with_world s w).
Proof.
  intros Hself Hbot Hp Hf.
  unfold run, onMessage, bind, resolve. rewrite Hself, Hbot.
  unfold bind, resolvePrefix. rewrite Hp, Hf. reflexivity.
Qed.

(** X6: a message that passes the filters is dropped silently when its
    text does not start with the prefix, when the token after the prefix is
    empty, and, the token and the names and aliases of the registered
    commands being ASCII text, when the token matches no registered
    command: the listener resolves, and nothing is emitted. *)
Theorem unknown_command_is_dropped (s s1 : State') (p : string) :
  negb (allowSelf client) && String.eqb (author_id msg) (client_user_id client) = false ->
  negb (allowBots client) && author_bot msg = false ->
  resolvePrefix client msg s = Next p s1 ->
  Js.startsWith (content msg) p = false
  \/ (exists command tokens,
        Js.split " " (Js.slice (String.length p) (content msg)) = command :: tokens
        /\ (command = EmptyString
            \/ (Js.is_ascii command = true
                /\ Forall (fun x : Command' =>
                             Js.is_ascii (name x) = true
                             /\ Forall (fun a => Js.is_ascii a = true) (aliases x))
                          (commandList client)
                /\ find (matches command) (commandList client) = None))) ->
  run (onMessage permissionsIn has client msg) s = (Resolved, s1)
  /\ trace s1 = trace s.
Proof.
  intros Hself Hbot Hp H. split; [ | exact (resolvePrefix_trace _ Hp) ].
  unfold run, onMessage, bind, resolve. rewrite Hself, Hbot.
  unfold bind. rewrite Hp.
  destruct H as [Hstart | (command & tokens & Hsplit & Hnone)].
  - rewrite Hstart. reflexivity.
  - destruct (negb (Js.startsWith (content msg) p)); [ reflexivity | ].
    rewrite Hsplit. cbn [Js.shift].
    destruct Hnone as [-> | (_ & _ & Hfind)]; [ reflexivity | ].
    destruct (String.eqb command EmptyString); [ reflexivity | ].
    rewrite Hfind. reflexivity.
Qed.

(** X7: in a text dispatch that has resolved a command, the gate asks for
    ownership first, then for the permissions of the client, then for those
    of the author, the last two both against [clientPermissions].  A
    non-owner calling an owner-only command gets [OwnerOnlyCommand] whatever
    the permissions are; otherwise a client that lacks the permissions gives
    [MissingClientPermissions]; otherwise an author that lacks them gives
    [MissingUserPermissions].  In each case the listener ends there. *)
Theorem text_gate_order (s s0 : State') (p : string) (cmd : Command')
    (tokens : list string) :
  resolve client msg s = Next (p, cmd, tokens) s0 ->
  (ownerOnly cmd && negb (Js.includes (owners client) (author_id msg)) = true ->
   run (onMessage permissionsIn has client msg) s
   = (Resolved, with_action s0 (EmitCommandError (OwnerOnlyCommand _ cmd msg) msg cmd)))
  /\ (ownerOnly cmd && negb (Js.includes (owners client) (author_id msg)) = false ->
      lacks permissionsIn has (guild_me (guild msg)) (channel_id msg)
            (clientPermissions cmd) = true ->
      run (onMessage permissionsIn has client msg) s
      = (Resolved,
         with_action s0
           (EmitCommandError
              (MissingClientPermissions _ cmd (clientPermissions cmd) msg) msg cmd)))
  /\ (ownerOnly cmd && negb (Js.includes (owners client) (author_id msg)) = false ->
      lacks permissionsIn has (guild_me (guild msg)) (channel_id msg)
            (clientPermissions cmd) = false ->
      lacks permissionsIn has (member msg) (channel_id msg)
            (clientPermissions cmd) = true ->
      run (onMessage permissionsIn has client msg) s
      = (Resolved,
         with_action s0
           (EmitCommandError
              (MissingUserPermissions _ cmd (clientPermissions cmd) msg) msg cmd))).
Proof.
  intros Hr.
  assert (Hrun : onMessage permissionsIn has client msg s
                 = (gate permissionsIn has client msg cmd ;;
                    runChecks msg cmd (checks cmd) ;;
                    fromLoop client msg p cmd 0 (args cmd) tokens []) s0).
  { unfold onMessage, fromLoop. unfold bind at 1. rewrite Hr. reflexivity. }
  unfold run. rewrite Hrun. unfold gate, bind, emit, return_, ret, with_action.
  repeat split.
  - intros ->. reflexivity.
  - intros -> ->. reflexivity.
  - intros -> -> ->. reflexivity.
Qed.

(** *** Converters *)

(** X8: when the argument loop comes to a parameter that is not [rest],
    whose type is not [String], with a token to convert, and no converter is
    registered for the type, the listener emits an [Error] and ends with no
    handler call.  Its message is [No converter found for type Function.]
    for every type, the type tag being a constructor function. *)
Theorem missing_converter_is_reported
    (s s2 : State') (p : string) (cmd : Command') (i : nat)
    (arg : Argument) (more : list Argument) (v : string) (args : list string)
    (parsedArgs : list (JsValue GuildMember)) :
  AtParameter permissionsIn has client msg s p cmd
    {| at_index := i; at_params := arg :: more; at_tokens := v :: args;
       at_parsed := parsedArgs; at_state := s2 |} ->
  rest arg = false ->
  v <> EmptyString ->
  type arg <> TString ->
  find (fun x => TypeTag_eqb (conv_type x) (type arg)) (argConverterList client)
    = None ->
  run (onMessage permissionsIn has client msg) s
  = (Resolved,
     {| world := world s2;
        trace := trace s ++ [EmitCommandError
                               (Thrown (JError "No converter found for type Function."))
                               msg cmd] |}).
Proof.
  intros Hat Hrest Hv Htype Hfind.
  destruct (dispatch_at_parameter Hat) as [Hrun Htrace]. simpl in Hrun, Htrace.
  unfold run. rewrite Hrun, fromLoop_turn.
  unfold convertArg. cbn [Js.shift]. rewrite Hrest.
  rewrite (not_str_nonempty Hv), !andb_false_r.
  rewrite (TypeTag_eqb_neq Htype), Hfind. simpl. rewrite Htrace. reflexivity.
Qed.

(** X9: when the awaited call of the converter raises an exception (the
    call throws, or its promise is rejected), the listener emits that very
    exception on ['commandError'] and ends with no handler call; unlike an
    exception of a check, it is reported. *)
Theorem converter_exception_is_reported
    (s s2 : State') (p : string) (cmd : Command') (i : nat)
    (arg : Argument) (more : list Argument) (v : string) (args : list string)
    (parsedArgs : list (JsValue GuildMember))
    (converter : ArgumentConverter World GuildMember)
    (e : JsValue GuildMember) (w : World) :
  AtParameter permissionsIn has client msg s p cmd
    {| at_index := i; at_params := arg :: more; at_tokens := v :: args;
       at_parsed := parsedArgs; at_state := s2 |} ->
  rest arg = false ->
  v <> EmptyString ->
  type arg <> TString ->
  find (fun x => TypeTag_eqb (conv_type x) (type arg)) (argConverterList client)
    = Some converter ->
  settle (convert converter (conv_module converter) (JString v) (JMessage msg))
         (world s2) = (Raised e, w) ->
  run (onMessage permissionsIn has client msg) s
  = (Resolved,
     {| world := w; trace := trace s ++ [EmitCommandError (Thrown e) msg cmd] |}).
Proof.
  intros Hat Hrest Hv Htype Hfind Hsettle.
  destruct (dispatch_at_parameter Hat) as [Hrun Htrace]. simpl in Hrun, Htrace.
  unfold run. rewrite Hrun, fromLoop_turn.
  unfold convertArg. cbn [Js.shift]. rewrite Hrest.
  rewrite (not_str_nonempty Hv), !andb_false_r.
  rewrite (TypeTag_eqb_neq Htype), Hfind.
  unfold bind. rewrite awaitCall_settle. cbn [token]. rewrite Hsettle.
  simpl. rewrite Htrace. reflexivity.
Qed.

(** X10: when the promise a converter returns never settles, the listener
    never resumes from its [await]: its own promise stays pending, nothing
    is emitted and no handler is called. *)
Theorem pending_converter_suspends_dispatch
    (s s2 : State') (p : string) (cmd : Command') (i : nat)
    (arg : Argument) (more : list Argument) (v : string) (args : list string)
    (parsedArgs : list (JsValue GuildMember))
    (converter : ArgumentConverter World GuildMember) (w : World) :
  AtParameter permissionsIn has client msg s p cmd
    {| at_index := i; at_params := arg :: more; at_tokens := v :: args;
       at_parsed := parsedArgs; at_state := s2 |} ->
  rest arg = false ->
  v <> EmptyString ->
  type arg <> TString ->
  find (fun x => TypeTag_eqb (conv_type x) (type arg)) (argConverterList client)
    = Some converter ->
  settle (convert converter (conv_module converter) (JString v) (JMessage msg))
         (world s2) = (Never, w) ->
  run (onMessage permissionsIn has client msg) s
  = (Suspended, {| world := w; trace := trace s |}).
Proof.
  intros Hat Hrest Hv Htype Hfind Hsettle.
  destruct (dispatch_at_parameter Hat) as [Hrun Htrace]. simpl in Hrun, Htrace.
  unfold run. rewrite Hrun, fromLoop_turn.
  unfold convertArg. cbn [Js.shift]. rewrite Hrest.
  rewrite (not_str_nonempty Hv), !andb_false_r.
  rewrite (TypeTag_eqb_neq Htype), Hfind.
  unfold bind. rewrite awaitCall_settle. cbn [token]. rewrite Hsettle.
  unfold with_world. rewrite Htrace. reflexivity.
Qed.

(** *** Tokens and parameters of type [String] *)

Lemma set_index_at_length (A : Type) (undef v : A) (a : list A) :
  Js.set_index undef a (length a) v = a ++ [v].
Proof. induction a as [ | x a IH]; simpl; [ reflexivity | rewrite IH; reflexivity ]. Qed.



Lemma concat_cons (sep x : string) (l : list string) :
  l <> [] -> String.concat sep (x :: l) = (x ++ sep ++ String.concat sep l)%string.
Proof. destruct l; [ contradiction | reflexivity ]. Qed.

(** X12: joining with single spaces the pieces [split(' ')] cuts a text
    into gives the text back, with its repeated, leading and trailing
    spaces. *)
Theorem join_split_round_trip (a : string) :
  String.concat " " (Js.split " " a) = a.
Proof.
  induction a as [ | c a IH]; [ reflexivity | ].
  cbn [Js.split]. destruct (Ascii.eqb c " ") eqn:Hc.
  - apply Ascii.eqb_eq in Hc. subst c.
    rewrite concat_cons by apply split_nonempty. rewrite IH. reflexivity.
  - destruct (Js.split " " a) as [ | w ws] eqn:E.
    + exfalso. exact (split_nonempty _ _ E).
    + rewrite <- IH. destruct ws; reflexivity.
Qed.

Lemma prefix_app (a b : string) : String.prefix a (a ++ b) = true.
Proof.
  induction a as [ | c a IH]; simpl.
  - destruct b; reflexivity.
  - destruct (Ascii.ascii_dec c c) as [ _ | Hne ]; [ exact IH | contradiction ].
Qed.

Lemma slice_app (a b : string) : Js.slice (String.length a) (a ++ b) = b.
Proof. induction a as [ | c a IH]; simpl; [ reflexivity | exact IH ]. Qed.

Lemma string_length_app (a b : string) :
  String.length (a ++ b) = String.length a + String.length b.
Proof. induction a as [ | c a IH]; simpl; [ reflexivity | rewrite IH; reflexivity ]. Qed.

(** Lines 35-45 on a message made of the prefix, a name and a text. *)
Lemma resolve_name_and_text (s s0 : State') (p command text : string) (cmd : Command') :
  negb (allowSelf client) && String.eqb (author_id msg) (client_user_id client) = false ->
  negb (allowBots client) && author_bot msg = false ->
  resolvePrefix client msg s = Next p s0 ->
  content msg = (p ++ command ++ String " " text)%string ->
  Js.split " " command = [command] ->
  command <> EmptyString ->
  find (matches command) (commandList client) = Some cmd ->
  resolve client msg s = Next (p, cmd, Js.split " " text) s0.
Proof.
  intros Hself Hbot Hp Hcontent Hname Hne Hfind.
  unfold resolve. rewrite Hself, Hbot. unfold bind. rewrite Hp.
  unfold ret. rewrite Hcontent. unfold Js.startsWith. rewrite prefix_app. cbn [negb].
  rewrite slice_app, split_app, Hname. cbn [app Js.shift].
  apply String.eqb_neq in Hne. rewrite Hne, Hfind. reflexivity.
Qed.

(** X13: for a message that passes the filters and is made of the prefix
    (a fixed string, or what the prefix function gives for the message), a
    command name, one space and a text, whose command passes the gate and
    the checks and has a [rest] parameter first, the handler is called with
    the context or the message and one more value, the text after that
    space exactly as it was typed, spaces included. *)
Theorem rest_parameter_is_verbatim
    (s s0 s1 : State') (p command text : string) (cmd : Command')
    (arg : Argument) (more : list Argument) :
  negb (allowSelf client) && String.eqb (author_id msg) (client_user_id client) = false ->
  negb (allowBots client) && author_bot msg = false ->
  resolvePrefix client msg s = Next p s0 ->
  content msg = (p ++ command ++ String " " text)%string ->
  Js.split " " command = [command] ->
  command <> EmptyString ->
  find (matches command) (commandList client) = Some cmd ->
  gate permissionsIn has client msg cmd s0 = Next tt s0 ->
  runChecks msg cmd (checks cmd) s0 = Next tt s1 ->
  args cmd = arg :: more ->
  rest arg = true ->
  run (onMessage permissionsIn has client msg) s
  = handlerCalled msg s p cmd (world s1) [JString text].
Proof.
  intros Hself Hbot Hp Hcontent Hname Hne Hfind Hgate Hchecks Hargs Hrest.
  pose proof (@resolve_name_and_text s s0 p command text cmd
                Hself Hbot Hp Hcontent Hname Hne Hfind) as Hr.
  assert (Hpre : preamble permissionsIn has client msg s
                 = Next (p, cmd, Js.split " " text) s1).
  { unfold preamble, bind. rewrite Hr, Hgate, Hchecks. reflexivity. }
  pose proof (preamble_trace _ Hpre) as Htrace.
  rewrite <- (@run_invoke s s1 p cmd _ Htrace).
  unfold run. erewrite onMessage_fromLoop by exact Hpre.
  rewrite Hargs, fromLoop_turn. unfold convertArg.
  rewrite <- (join_split_round_trip text) at 2.
  rewrite <- (join_shift (Js.split " " text)).
  destruct (Js.shift (Js.split " " text)) as [v rest_tokens].
  rewrite Hrest. reflexivity.
Qed.

(** *** The built-in converters *)

Lemma endsWith_app (a b : string) : Js.endsWith (a ++ b) b = true.
Proof.
  unfold Js.endsWith. rewrite string_length_app.
  replace (String.length a + String.length b - String.length b)
    with (String.length a) by lia.
  rewrite slice_app, String.eqb_refl, andb_true_r.
  apply Nat.leb_le. lia.
Qed.

Lemma substring_skip (a b : string) (n : nat) :
  String.substring (String.length a) n (a ++ b) = String.substring 0 n b.
Proof. induction a as [ | c a IH]; simpl; [ reflexivity | exact IH ]. Qed.

Lemma substring_front (a b : string) :
  String.substring 0 (String.length a) (a ++ b) = a.
Proof.
  induction a as [ | c a IH]; simpl.
  - destruct b; reflexivity.
  - rewrite IH. reflexivity.
Qed.

Lemma slice_between_app (a b c : string) :
  Js.slice_between (String.length a) (String.length c) (a ++ b ++ c) = b.
Proof.
  unfold Js.slice_between. rewrite !string_length_app.
  replace (String.length a + (String.length b + String.length c)
           - String.length a - String.length c)
    with (String.length b) by lia.
  rewrite substring_skip. apply substring_front.
Qed.

Lemma mention_decoded (id : string) :
  @BuiltinCommandConverters.getUserIDByMention GuildMember
    (JString ("<@" ++ id ++ ">"))
  = Return (JString (if Js.startsWith id "!" then Js.slice 1 id else id)).
Proof.
  unfold BuiltinCommandConverters.getUserIDByMention.
  change (String.eqb ("<@" ++ id ++ ">") EmptyString) with false. cbv iota.
  assert (Hstart : Js.startsWith ("<@" ++ id ++ ">") "<@" = true)
    by (unfold Js.startsWith; apply (prefix_app "<@")).
  assert (Hend : Js.endsWith ("<@" ++ id ++ ">") ">" = true).
  { change ("<@" ++ id ++ ">")%string with ("<@" ++ (id ++ ">"))%string.
    replace ("<@" ++ (id ++ ">"))%string with (("<@" ++ id) ++ ">")%string
      by reflexivity.
    apply endsWith_app. }
  rewrite Hstart, Hend. cbn [andb].
  pose proof (slice_between_app "<@" id ">") as Hid. cbn [String.length] in Hid.
  rewrite Hid. reflexivity.
Qed.

Lemma mention_gives_id_aux (id : string) :
  Js.startsWith id "!" = false ->
  @BuiltinCommandConverters.getUserIDByMention GuildMember
    (JString ("<@" ++ id ++ ">")) = Return (JString id)
  /\ @BuiltinCommandConverters.getUserIDByMention GuildMember
       (JString ("<@!" ++ id ++ ">")) = Return (JString id).
Proof.
  intros Hid. split.
  - rewrite mention_decoded, Hid. reflexivity.
  - change ("<@!" ++ id ++ ">")%string with ("<@" ++ String "!" id ++ ">")%string.
    rewrite mention_decoded.
    assert (Hbang : Js.startsWith (String "!" id) "!" = true)
      by (unfold Js.startsWith; apply (prefix_app "!" id)).
    rewrite Hbang. reflexivity.
Qed.

(** X14: [getUserIDByMention] takes the id out of a mention: for an id that
    does not begin with [!], both [<@id>] and [<@!id>] give the id. *)
Theorem mention_gives_id (id : string) :
  Js.startsWith id "!" = false ->
  @BuiltinCommandConverters.getUserIDByMention GuildMember
    (JString ("<@" ++ id ++ ">")) = Return (JString id)
  /\ @BuiltinCommandConverters.getUserIDByMention GuildMember
       (JString ("<@!" ++ id ++ ">")) = Return (JString id).
Proof. exact (mention_gives_id_aux id). Qed.

(** X15: a text that does not begin with [<@], or does not end with [>],
    is no mention: [user] gives [null] and [member] gives [undefined] for
    it, with no look at a cache, so the dispatcher would report a
    conversion failure. *)
Theorem no_mention_gives_no_user (this : nat) (m value : JsValue GuildMember)
    (text : string) (w : World)
    (users_cache : string -> option nat)
    (members_cache : Guild GuildMember -> string -> option nat) :
  Js.startsWith text "<@" && Js.endsWith text ">" = false ->
  BuiltinCommandConverters.user users_cache this m (JString text) w
    = (Return JNull, w)
  /\ BuiltinCommandConverters.member members_cache this m (JString text) w
     = (Return JUndefined, w)
  /\ truthy (@JNull GuildMember) = false
  /\ truthy (@JUndefined GuildMember) = false.
Proof.
  intros Hno.
  unfold BuiltinCommandConverters.user, BuiltinCommandConverters.member,
    BuiltinCommandConverters.pure, BuiltinCommandConverters.getUserIDByMention.
  rewrite Hno. destruct (String.eqb text EmptyString); repeat split.
Qed.

(** X16: on a mention, of either form [<@id>] or [<@!id>], of a non-empty
    id that does not begin with [!], [user] gives the user cached under the
    id, or [null] when there is none; [member], for a message in a guild,
    gives the member that guild caches under the id, and [undefined] when
    there is none or the message is in no guild. *)
Theorem mention_is_looked_up (this : nat) (m : Message GuildMember)
    (value : JsValue GuildMember) (id mention : string) (w : World)
    (users_cache : string -> option nat)
    (members_cache : Guild GuildMember -> string -> option nat) :
  Js.startsWith id "!" = false ->
  id <> EmptyString ->
  mention = ("<@" ++ id ++ ">")%string \/ mention = ("<@!" ++ id ++ ">")%string ->
  BuiltinCommandConverters.user users_cache this value (JString mention) w
    = (match users_cache id with
       | Some u => Return (JObject u)
       | None => Return JNull
       end, w)
  /\ BuiltinCommandConverters.member members_cache this (JMessage m)
       (JString mention) w
     = (match guild m with
        | Some g => match members_cache g id with
                    | Some u => Return (JObject u)
                    | None => Return JUndefined
                    end
        | None => Return JUndefined
        end, w).
Proof.
  intros Hid Hne Hmention. destruct (mention_gives_id_aux id Hid) as [H1 H2].
  apply String.eqb_neq in Hne.
  unfold BuiltinCommandConverters.user, BuiltinCommandConverters.member,
    BuiltinCommandConverters.pure.
  destruct Hmention as [-> | ->].
  - rewrite H1. cbn [truthy]. rewrite Hne. cbn [negb]. split; reflexivity.
  - rewrite H2. cbn [truthy]. rewrite Hne. cbn [negb]. split; reflexivity.
Qed.

(** *** The built-in converters as the argument loop calls them *)

Lemma dispatch_converter_value
    (s s2 : State') (p : string) (cmd : Command') (i : nat)
    (arg : Argument) (more : list Argument) (v : string) (args : list string)
    (parsedArgs : list (JsValue GuildMember))
    (converter : ArgumentConverter World GuildMember)
    (r : JsValue GuildMember) (w : World) :
  AtParameter permissionsIn has client msg s p cmd
    {| at_index := i; at_params := arg :: more; at_tokens := v :: args;
       at_parsed := parsedArgs; at_state := s2 |} ->
  rest arg = false ->
  v <> EmptyString ->
  type arg <> TString ->
  find (fun x => TypeTag_eqb (conv_type x) (type arg)) (argConverterList client)
    = Some converter ->
  settle (convert converter (conv_module converter) (JString v) (JMessage msg))
         (world s2) = (Got r, w) ->
  truthy r = true ->
  run (onMessage permissionsIn has client msg) s
  = run (fromLoop client msg p cmd (S i) more args
           (Js.set_index JUndefined parsedArgs i r)) (with_world s2 w).
Proof.
  intros Hat Hrest Hv Htype Hfind Hsettle Htruthy.
  destruct (dispatch_at_parameter Hat) as [Hrun Htrace]. simpl in Hrun, Htrace.
  unfold run at 1. rewrite Hrun, fromLoop_turn.
  unfold convertArg. cbn [Js.shift]. rewrite Hrest.
  rewrite (not_str_nonempty Hv), !andb_false_r.
  rewrite (TypeTag_eqb_neq Htype), Hfind.
  unfold bind. rewrite awaitCall_settle. cbn [token]. rewrite Hsettle.
  rewrite Htruthy. reflexivity.
Qed.

(** X17: the argument loop hands a converter the token first and the
    message second, and the built-in [message] method gives back its first
    argument.  So a parameter served by it gets the token, a string, as its
    value, not the message, and the loop goes on to the next parameter. *)
Theorem builtin_message_gives_the_token
    (s s2 : State') (p : string) (cmd : Command') (i : nat)
    (arg : Argument) (more : list Argument) (v : string) (args : list string)
    (parsedArgs : list (JsValue GuildMember))
    (converter : ArgumentConverter World GuildMember) :
  AtParameter permissionsIn has client msg s p cmd
    {| at_index := i; at_params := arg :: more; at_tokens := v :: args;
       at_parsed := parsedArgs; at_state := s2 |} ->
  rest arg = false ->
  v <> EmptyString ->
  type arg <> TString ->
  find (fun x => TypeTag_eqb (conv_type x) (type arg)) (argConverterList client)
    = Some converter ->
  convert converter = @BuiltinCommandConverters.message World GuildMember ->
  run (onMessage permissionsIn has client msg) s
  = run (fromLoop client msg p cmd (S i) more args
           (Js.set_index JUndefined parsedArgs i (JString v))) s2.
Proof.
  intros Hat Hrest Hv Htype Hfind Hconv.
  assert (Hsettle :
    settle (convert converter (conv_module converter) (JString v) (JMessage msg))
           (world s2) = (Got (JString v), world s2))
    by (rewrite Hconv; reflexivity).
  assert (Htruthy : truthy (@JString GuildMember v) = true)
    by (simpl; apply String.eqb_neq in Hv; rewrite Hv; reflexivity).
  pose proof (@dispatch_converter_value s s2 p cmd i arg more v args parsedArgs
                converter (JString v) (world s2) Hat Hrest Hv Htype Hfind
                Hsettle Htruthy) as H.
  rewrite with_world_same in H. exact H.
Qed.

(** X18: the built-in [user] and [member] methods read [startsWith] of their
    second argument, which the argument loop makes the message.  So a
    parameter served by either of them always fails: the listener emits the
    [TypeError] of that read and ends with no handler call, whatever the
    token and the caches are. *)
Theorem builtin_user_throws_under_dispatch
    (s s2 : State') (p : string) (cmd : Command') (i : nat)
    (arg : Argument) (more : list Argument) (v : string) (args : list string)
    (parsedArgs : list (JsValue GuildMember))
    (converter : ArgumentConverter World GuildMember)
    (users_cache : string -> option nat)
    (members_cache : Guild GuildMember -> string -> option nat) :
  AtParameter permissionsIn has client msg s p cmd
    {| at_index := i; at_params := arg :: more; at_tokens := v :: args;
       at_parsed := parsedArgs; at_state := s2 |} ->
  rest arg = false ->
  v <> EmptyString ->
  type arg <> TString ->
  find (fun x => TypeTag_eqb (conv_type x) (type arg)) (argConverterList client)
    = Some converter ->
  convert converter = BuiltinCommandConverters.user users_cache
  \/ convert converter = BuiltinCommandConverters.member members_cache ->
  run (onMessage permissionsIn has client msg) s
  = (Resolved,
     {| world := world s2;
        trace := trace s ++ [EmitCommandError
                               (Thrown (JError "mention.startsWith is not a function"))
                               msg cmd] |}).
Proof.
  intros Hat Hrest Hv Htype Hfind Hconv.
  destruct (dispatch_at_parameter Hat) as [Hrun Htrace]. simpl in Hrun, Htrace.
  unfold run. rewrite Hrun, fromLoop_turn.
  unfold convertArg. cbn [Js.shift]. rewrite Hrest.
  rewrite (not_str_nonempty Hv), !andb_false_r.
  rewrite (TypeTag_eqb_neq Htype), Hfind.
  unfold bind. rewrite awaitCall_settle. cbn [token].
  destruct Hconv as [-> | ->]; simpl; rewrite Htrace; reflexivity.
Qed.

(** *** The guild option of the interaction listener *)

Lemma str_includes_refl (g : string) : Js.str_includes g g = true.
Proof.
  unfold Js.str_includes. destruct g as [ | c g]; [ reflexivity | ].
  cbn [String.index].
  pose proof (prefix_app (String c g) EmptyString) as H.
  assert (Happ : forall x : string, (x ++ EmptyString)%string = x).
  { induction x as [ | d x IH]; simpl; [ reflexivity | rewrite IH; reflexivity ]. }
  rewrite Happ in H. rewrite H. reflexivity.
Qed.

(** X19: with an array of guild ids as the [guild] option, the first test of
    the interaction listener holds for every interaction, since an array is
    never [===] to a guild id: every interaction is dropped, also those of
    the listed guilds, with no emission and no handler call. *)
Theorem guild_array_drops_every_interaction
    (i : Interaction GuildMember Options) (s : State') (ids : list string) :
  slashCommands_guild client = GuildArray ids ->
  run (interaction permissionsIn has client i) s = (Resolved, s).
Proof.
  intros Hg. unfold run, interaction, bind, guild_mismatch. rewrite Hg. reflexivity.
Qed.

(** X20: with no [guild] option, the first test of the interaction listener
    reads [includes] of [undefined]: the listener's promise is rejected with
    that [TypeError] for every interaction, and nothing is emitted on
    ['slashCommandError']. *)
Theorem missing_guild_option_rejects
    (i : Interaction GuildMember Options) (s : State') :
  slashCommands_guild client = GuildUndefined ->
  run (interaction permissionsIn has client i) s
  = (RejectedWith
       (JError "Cannot read properties of undefined (reading 'includes')"), s).
Proof.
  intros Hg. unfold run, interaction, bind, guild_mismatch. rewrite Hg. reflexivity.
Qed.

(** X21: with one non-empty guild id as the [guild] option, the interaction
    listener goes on exactly for the interactions of that guild: an
    interaction of another guild, or of no guild, is dropped with no
    emission and no handler call. *)
Theorem guild_string_admits_only_that_guild
    (i : Interaction GuildMember Options) (s : State') (g : string) :
  slashCommands_guild client = GuildString g ->
  g <> EmptyString ->
  (guildId i = Some g -> guild_mismatch client i s = Next false s)
  /\ (guildId i <> Some g ->
      run (interaction permissionsIn has client i) s = (Resolved, s)).
Proof.
  intros Hg Hne. apply String.eqb_neq in Hne. split.
  - intros Hi. unfold guild_mismatch. rewrite Hg, Hi, Hne, String.eqb_refl.
    rewrite str_includes_refl. reflexivity.
  - intros Hi. unfold run, interaction, bind, guild_mismatch. rewrite Hg, Hne.
    destruct (guildId i) as [x | ].
    + destruct (String.eqb g x) eqn:E.
      * apply String.eqb_eq in E. subst x. contradiction.
      * reflexivity.
    + reflexivity.
Qed.

(** *** Where an interaction dispatch can end *)

Lemma guild_mismatch_state (i : Interaction GuildMember Options) (s s' : State')
    (b : bool) :
  guild_mismatch client i s = Next b s' -> s' = s.
Proof.
  unfold guild_mismatch, throw_, ret.
  destruct (slashCommands_guild client); intros H; inversion H; reflexivity.
Qed.


(** X23: an interaction dispatch that finds its command and passes the three
    gate tests calls the handler with the interaction and its options and
    awaits it.  When the call settles with a value the trace gains the call
    alone; when it raises an exception (thrown, or by rejection) the trace
    gains the call and the emission of the exception on
    ['slashCommandError']; when it never settles the listener stays
    suspended after the call. *)
Theorem interaction_calls_handler
    (i : Interaction GuildMember Options) (s : State')
    (command : SlashCommand World GuildMember PermissionResolvable Options)
    (result : Awaited GuildMember (JsValue GuildMember)) (w : World) :
  guild_mismatch client i s = Next false s ->
  isCommand i = true ->
  find (fun x => String.eqb (s_name x) (command_name i)) (slashCommandList client)
    = Some command ->
  lacks permissionsIn has (guild_me (i_guild i)) (i_channel_id i)
        (s_clientPermissions command) = false ->
  lacks permissionsIn has (i_member i) (i_channel_id i)
        (s_clientPermissions command) = false ->
  s_ownerOnly command && negb (Js.includes (owners client) (user_id i)) = false ->
  settle (s_execute command (s_module command) i (options i)) (world s)
    = (result, w) ->
  run (interaction permissionsIn has client i) s
  = match result with
    | Got _ =>
        (Resolved,
         {| world := w; trace := trace s ++ [ExecuteSlash command i (options i)] |})
    | Raised e =>
        (Resolved,
         {| world := w;
            trace := trace s ++ [ExecuteSlash command i (options i);
                                 EmitSlashCommandError (Thrown e) i (command_name i)] |})
    | Never =>
        (Suspended,
         {| world := w; trace := trace s ++ [ExecuteSlash command i (options i)] |})
    end.
Proof.
  intros Hguild Hcmd Hfind Hclient Hmember Howner Hsettle.
  unfold run, interaction. unfold bind at 1. rewrite Hguild, Hcmd, Hfind. cbn [negb].
  unfold slashGate, slashInvoke, bind, emit, ret.
  rewrite Hclient, Hmember, Howner. rewrite awaitCall_settle. simpl.
  rewrite Hsettle. destruct result as [r | e | ]; simpl.
  - reflexivity.
  - rewrite <- app_assoc. reflexivity.
  - reflexivity.
Qed.

(** X24: every interaction dispatch adds to the trace nothing, or one
    emission on ['slashCommandError'], or one call of a registered slash
    command whose name is exactly the interaction's command name, or that
    call followed by the emission of what it raised. *)
Theorem interaction_reports_once
    (i : Interaction GuildMember Options) (s : State') :
  exists acts,
    trace (snd (run (interaction permissionsIn has client i) s)) = trace s ++ acts
    /\ (acts = []
        \/ (exists e, acts = [EmitSlashCommandError e i (command_name i)])
        \/ (exists command,
              In command (slashCommandList client)
              /\ s_name command = command_name i
              /\ (acts = [ExecuteSlash command i (options i)]
                  \/ exists e,
                       acts = [ExecuteSlash command i (options i);
                               EmitSlashCommandError (Thrown e) i (command_name i)]))).
Proof.
  unfold run, interaction. unfold bind at 1.
  destruct (guild_mismatch client i s) as [b s0 | o s0] eqn:Hguild.
  2:{ exists []. simpl. rewrite app_nil_r. split; [ | auto ].
      unfold guild_mismatch, throw_, ret in Hguild.
      destruct (slashCommands_guild client); inversion Hguild; reflexivity. }
  apply guild_mismatch_state in Hguild. subst s0.
  destruct b; [ exists []; simpl; rewrite app_nil_r; auto | ].
  destruct (negb (isCommand i)); [ exists []; simpl; rewrite app_nil_r; auto | ].
  destruct (find _ (slashCommandList client)) as [command | ] eqn:Hfind;
    [ | exists []; simpl; rewrite app_nil_r; auto ].
  apply find_some in Hfind. destruct Hfind as [Hin Hname].
  apply String.eqb_eq in Hname.
  unfold slashGate, slashInvoke, bind, emit, return_, ret.
  destruct (lacks _ _ (guild_me _) _ _);
    [ eexists; simpl; split; [ reflexivity | right; left; eauto ] | ].
  destruct (lacks _ _ (i_member i) _ _);
    [ eexists; simpl; split; [ reflexivity | right; left; eauto ] | ].
  destruct (s_ownerOnly command && _);
    [ eexists; simpl; split; [ reflexivity | right; left; eauto ] | ].
  rewrite awaitCall_settle. simpl.
  destruct (settle _ (world s)) as [[r | e | ] w]; simpl.
  - eexists. split; [ reflexivity | ]. right. right. exists command. auto.
  - exists [ExecuteSlash command i (options i);
            EmitSlashCommandError (Thrown e) i (command_name i)].
    split; [ rewrite <- app_assoc; reflexivity | ].
    right. right. exists command. split; [ exact Hin | ]. split; [ exact Hname | ].
    right. exists e. reflexivity.
  - eexists. split; [ reflexivity | ]. right. right. exists command. auto.
Qed.

(** X25: when the awaited result of the converter is truthy, it becomes the
    value of the parameter, in the slot of the parameter's index, and the
    loop goes on with the next parameter and the tokens left. *)
Theorem converted_value_is_stored
    (s s2 : State') (p : string) (cmd : Command') (i : nat)
    (arg : Argument) (more : list Argument) (v : string) (args : list string)
    (parsedArgs : list (JsValue GuildMember))
    (converter : ArgumentConverter World GuildMember)
    (r : JsValue GuildMember) (w : World) :
  AtParameter permissionsIn has client msg s p cmd
    {| at_index := i; at_params := arg :: more; at_tokens := v :: args;
       at_parsed := parsedArgs; at_state := s2 |} ->
  rest arg = false ->
  v <> EmptyString ->
  type arg <> TString ->
  find (fun x => TypeTag_eqb (conv_type x) (type arg)) (argConverterList client)
    = Some converter ->
  settle (convert converter (conv_module converter) (JString v) (JMessage msg))
         (world s2) = (Got r, w) ->
  truthy r = true ->
  run (onMessage permissionsIn has client msg) s
  = run (fromLoop client msg p cmd (S i) more args (parsedArgs ++ [r]))
        (with_world s2 w).
Proof.
  intros Hat Hrest Hv Htype Hfind Hsettle Htruthy.
  rewrite (@dispatch_converter_value s s2 p cmd i arg more v args parsedArgs
             converter r w Hat Hrest Hv Htype Hfind Hsettle Htruthy).
  pose proof (AtParameter_length Hat) as Hlen. simpl in Hlen. subst i.
  rewrite set_index_at_length. reflexivity.
Qed.

End Properties.

(** * The listeners run on the small bot *)

Import Bot.

Lemma falsy_conversion_result_is_failure_witness :
  text [digitConverter] "!add 0 3"
  = (Resolved,
     {| world := 1;
        trace := [EmitCommandError ConversionFailed (message "!add 0 3") add] |}).
Proof.
  refine (proj1 (@falsy_conversion_result_is_failure
                   nat nat nat nat unit permissionsIn has
                   (client [digitConverter]) (message "!add 0 3")
                   start start "!" add 0 (param TNumber) [param TNumber]
                   "0" ["3"] [] digitConverter (JNumber 0%float) 1
                   _ _ _ _ _ _ _)).
  - exists ["0"; "3"], start. split; [ reflexivity | apply reach_refl ].
  - reflexivity.
  - discriminate.
  - discriminate.
  - reflexivity.
  - reflexivity.
  - reflexivity.
Defined.

Lemma missing_required_argument_witness :
  text [] "!pair"
  = (Resolved,
     {| world := 0;
        trace := [EmitCommandError MissingArgument (message "!pair") pair] |}).
Proof.
  refine (@missing_required_argument
            nat nat nat nat unit permissionsIn has (client []) (message "!pair")
            start start "!" pair 0 (param TString) [optional_param TString] []
            _ _ _).
  - exists [], start. split; [ reflexivity | apply reach_refl ].
  - reflexivity.
  - reflexivity.
Defined.

Lemma missing_optional_argument_witness :
  text [] "!greet"
  = (Resolved,
     {| world := 1; trace := [Execute unit greet [JMessage (message "!greet")]] |}).
Proof.
  refine (proj1 (@missing_optional_argument
                   nat nat nat nat unit permissionsIn has (client [])
                   (message "!greet") start start "!" greet 0
                   (optional_param TString) [] [] _ _ _)).
  - exists [], start. split; [ reflexivity | apply reach_refl ].
  - reflexivity.
  - reflexivity.
Defined.

Lemma rest_parameter_joins_tokens_witness :
  text [] "!say hello world"
  = (Resolved,
     {| world := 1;
        trace := [Execute unit say [JMessage (message "!say hello world");
                                    JString "hello world"]] |}).
Proof.
  refine (proj1 (@rest_parameter_joins_tokens
                   nat nat nat nat unit permissionsIn has (client [])
                   (message "!say hello world") start start "!" say 0
                   rest_param [] ["hello"; "world"] [] _ _)).
  - exists ["hello"; "world"], start. split; [ reflexivity | apply reach_refl ].
  - reflexivity.
Defined.

Lemma empty_token_is_no_token_witness :
  text [] "!pair  x"
  = (Resolved,
     {| world := 0;
        trace := [EmitCommandError MissingArgument (message "!pair  x") pair] |}).
Proof.
  refine (proj1 (proj2 (@empty_token_is_no_token
                          nat nat nat nat unit permissionsIn has (client [])
                          (message "!pair  x") start start "!" pair 0
                          (param TString) [optional_param TString] ["x"] []
                          _ _))).
  - exists [EmptyString; "x"], start. split; [ reflexivity | apply reach_refl ].
  - reflexivity.
Defined.

Lemma throwing_check_aborts_silently_witness :
  text [] "!guarded" = (Resolved, {| world := 1; trace := [] |}).
Proof.
  refine (proj1 (@throwing_check_aborts_silently
                   nat nat nat nat unit permissionsIn has (client [])
                   (message "!guarded") start start start start "!" guarded []
                   [] [] (fun _ => throws (JError "boom"))
                   (Raised (JError "boom")) 1 _ _ _ _ _)
                (JError "boom") eq_refl).
  - reflexivity.
  - reflexivity.
  - reflexivity.
  - reflexivity.
  - reflexivity.
Defined.

Lemma interaction_gate_order_witness :
  command_interaction "hello" 0
  = (Resolved,
     {| world := 0;
        trace := [EmitSlashCommandError
                    (MissingSlashClientPermissions hello 1 (slash "hello" 0))
                    (slash "hello" 0) "hello"] |})
  /\ lacks permissionsIn has (i_member (slash "hello" 0)) "general" 1 = true
  /\ Js.includes (owners (client [])) (user_id (slash "hello" 0)) = false.
Proof.
  split; [ | split; reflexivity ].
  refine (proj1 (@interaction_gate_order
                   nat nat nat nat unit permissionsIn has (client [])
                   (slash "hello" 0) start hello _ _ _) _).
  - reflexivity.
  - reflexivity.
  - reflexivity.
  - reflexivity.
Defined.

Lemma builtin_number_parses_the_message_witness :
  text [numberConverter] "!square 3"
  = (Resolved,
     {| world := 1;
        trace := [Execute unit square [JMessage (message "!square 3");
                                       JNumber 7%float]] |}).
Proof.
  refine (proj2 (@builtin_number_parses_the_message
                   nat nat nat nat unit permissionsIn has
                   (client [numberConverter]) (message "!square 3")
                   StringToNumber ObjectToNumber
                   start start "!" square 0 (param TNumber) [] "3" [] []
                   numberConverter _ _ _ _ _ _)).
  - exists ["3"], start. split; [ reflexivity | apply reach_refl ].
  - reflexivity.
  - discriminate.
  - reflexivity.
  - reflexivity.
  - reflexivity.
Defined.

(** C9, as it is stated, fails where the message object converts to the
    number the token spells: the token [7] in a message that prints as [7]
    reaches the handler as the number [7]. *)
Lemma builtin_number_can_give_the_token_value :
  BuiltinCommandConverters.Number StringToNumber ObjectToNumber (JString "7")
  = 7%float
  /\ text [numberConverter] "!square 7"
     = (Resolved,
        {| world := 1;
           trace := [Execute unit square
                       [JMessage (message "!square 7");
                        JNumber (BuiltinCommandConverters.Number
                                   StringToNumber ObjectToNumber (JString "7"))]] |}).
Proof. split; reflexivity. Qed.

(** C4 at the input [!P]: the alias [p] of [ping] typed in upper case
    resolves to nothing, while [!p] and [!PING] resolve to [ping]. *)
Theorem uppercase_alias_does_not_resolve :
  find (matches "P") (commandList (client [])) = None
  /\ text [] "!P" = (Resolved, start)
  /\ find (matches "p") (commandList (client [])) = Some ping
  /\ find (matches "PING") (commandList (client [])) = Some ping
  /\ text [] "!pong" = (Resolved, start).
Proof. repeat split. Qed.

(** C8 at a handler that returns a rejected promise: the message listener
    emits nothing, the interaction listener emits the reason; an exception
    the handler throws during the call is emitted by the message listener
    too. *)
Theorem text_handler_rejection_is_not_emitted :
  text [] "!crashLater"
  = (Resolved,
     {| world := 1;
        trace := [Execute unit crashLater [JMessage (message "!crashLater")]] |})
  /\ command_interaction "later" 1
     = (Resolved,
        {| world := 1;
           trace := [ExecuteSlash helloLater (slash "later" 1) tt;
                     EmitSlashCommandError (Thrown (JError "boom"))
                       (slash "later" 1) "later"] |})
  /\ text [] "!crash"
     = (Resolved,
        {| world := 1;
           trace := [Execute unit crash [JMessage (message "!crash")];
                     EmitCommandError (Thrown (JError "boom"))
                       (message "!crash") crash] |}).
Proof. repeat split. Qed.

(** * More runs of the listeners *)

Import Town.

Lemma handler_called_on_registered_command_witness :
  In (Execute unit secret [JContext (sent "42" false 1 "!secret") "!"]) (trace start)
  \/ (In secret (commandList (town bang (GuildString "100") []))
      /\ exists p parsedArgs,
           [JContext (sent "42" false 1 "!secret") "!"]
           = contextOrMessage (sent "42" false 1 "!secret") p secret :: parsedArgs
           /\ length parsedArgs <= length (args secret)).
Proof.
  refine (@handler_called_on_registered_command
            nat nat nat nat unit permissionsIn has
            (town bang (GuildString "100") []) (sent "42" false 1 "!secret")
            start secret [JContext (sent "42" false 1 "!secret") "!"] _).
  simpl. left. reflexivity.
Defined.

Lemma unsettled_text_dispatch_adds_nothing_witness :
  trace (snd (hears (town brokenPrefix (GuildString "100") [])
                    (sent "42" false 1 "!secret")))
  = trace start.
Proof.
  refine (@unsettled_text_dispatch_adds_nothing
            nat nat nat nat unit permissionsIn has
            (town brokenPrefix (GuildString "100") []) (sent "42" false 1 "!secret")
            start _).
  simpl. discriminate.
Defined.

Lemma filtered_message_is_dropped_witness :
  hears (town brokenPrefix (GuildString "100") []) (sent "1" false 1 "!secret")
  = (Resolved, start).
Proof.
  refine (@filtered_message_is_dropped
            nat nat nat nat unit permissionsIn has
            (town brokenPrefix (GuildString "100") []) (sent "1" false 1 "!secret")
            start _).
  left. split; reflexivity.
Defined.

Lemma prefix_exception_rejects_listener_witness :
  hears (town brokenPrefix (GuildString "100") []) (sent "42" false 1 "!secret")
  = (RejectedWith (JError "no prefix"), {| world := 1; trace := [] |}).
Proof.
  refine (@prefix_exception_rejects_listener
            nat nat nat nat unit permissionsIn has
            (town brokenPrefix (GuildString "100") []) (sent "42" false 1 "!secret")
            start (fun _ w => (Raised (JError "no prefix"), S w))
            (JError "no prefix") 1 _ _ _ _); reflexivity.
Defined.

Lemma unknown_command_is_dropped_witness :
  hears (town bang (GuildString "100") []) (sent "42" false 1 "!nothing here")
  = (Resolved, start)
  /\ hears (town bang (GuildString "100") []) (sent "42" false 1 "secret")
     = (Resolved, start).
Proof.
  split.
  - refine (proj1 (@unknown_command_is_dropped
                     nat nat nat nat unit permissionsIn has
                     (town bang (GuildString "100") [])
                     (sent "42" false 1 "!nothing here") start start "!" _ _ _ _)).
    + reflexivity.
    + reflexivity.
    + reflexivity.
    + right. exists "nothing", ["here"]. split; [ reflexivity | right ].
      split; [ reflexivity | ]. split; [ | reflexivity ].
      repeat constructor.
  - refine (proj1 (@unknown_command_is_dropped
                     nat nat nat nat unit permissionsIn has
                     (town bang (GuildString "100") [])
                     (sent "42" false 1 "secret") start start "!" _ _ _ _)).
    + reflexivity.
    + reflexivity.
    + reflexivity.
    + left. reflexivity.
Defined.

Lemma text_gate_order_witness :
  hears (town bang (GuildString "100") []) (sent "7" false 0 "!secret")
  = (Resolved,
     {| world := 0;
        trace := [EmitCommandError
                    (OwnerOnlyCommand unit secret (sent "7" false 0 "!secret"))
                    (sent "7" false 0 "!secret") secret] |})
  /\ lacks permissionsIn has (guild_me (guild (sent "7" false 0 "!secret")))
           "general" (clientPermissions secret) = true.
Proof.
  split; [ | reflexivity ].
  refine (proj1 (@text_gate_order
                   nat nat nat nat unit permissionsIn has
                   (town bang (GuildString "100") []) (sent "7" false 0 "!secret")
                   start start "!" secret [] _) _).
  - reflexivity.
  - reflexivity.
Defined.

Lemma missing_converter_is_reported_witness :
  hears (town bang (GuildString "100") []) (sent "42" false 1 "!square 3")
  = (Resolved,
     {| world := 0;
        trace := [EmitCommandError
                    (Thrown (JError "No converter found for type Function."))
                    (sent "42" false 1 "!square 3") square] |}).
Proof.
  refine (@missing_converter_is_reported
            nat nat nat nat unit permissionsIn has
            (town bang (GuildString "100") []) (sent "42" false 1 "!square 3")
            start start "!" square 0 (param TNumber) [] "3" [] [] _ _ _ _ _).
  - exists ["3"], start. split; [ reflexivity | apply reach_refl ].
  - reflexivity.
  - discriminate.
  - discriminate.
  - reflexivity.
Defined.

Lemma converter_exception_is_reported_witness :
  hears (town bang (GuildString "100") [failingConverter])
        (sent "42" false 1 "!square 3")
  = (Resolved,
     {| world := 1;
        trace := [EmitCommandError (Thrown (JError "not a number"))
                    (sent "42" false 1 "!square 3") square] |}).
Proof.
  refine (@converter_exception_is_reported
            nat nat nat nat unit permissionsIn has
            (town bang (GuildString "100") [failingConverter])
            (sent "42" false 1 "!square 3")
            start start "!" square 0 (param TNumber) [] "3" [] []
            failingConverter (JError "not a number") 1 _ _ _ _ _ _).
  - exists ["3"], start. split; [ reflexivity | apply reach_refl ].
  - reflexivity.
  - discriminate.
  - discriminate.
  - reflexivity.
  - reflexivity.
Defined.

Lemma pending_converter_suspends_dispatch_witness :
  hears (town bang (GuildString "100") [pendingConverter])
        (sent "42" false 1 "!square 3")
  = (Suspended, {| world := 1; trace := [] |}).
Proof.
  refine (@pending_converter_suspends_dispatch
            nat nat nat nat unit permissionsIn has
            (town bang (GuildString "100") [pendingConverter])
            (sent "42" false 1 "!square 3")
            start start "!" square 0 (param TNumber) [] "3" [] []
            pendingConverter 1 _ _ _ _ _ _).
  - exists ["3"], start. split; [ reflexivity | apply reach_refl ].
  - reflexivity.
  - discriminate.
  - discriminate.
  - reflexivity.
  - reflexivity.
Defined.

Lemma converted_value_is_stored_witness :
  hears (town bang (GuildString "100") [digitConverter])
        (sent "42" false 1 "!square 3")
  = (Resolved,
     {| world := 2;
        trace := [Execute unit square [JMessage (sent "42" false 1 "!square 3");
                                       JNumber 3%float]] |}).
Proof.
  refine (@converted_value_is_stored
            nat nat nat nat unit permissionsIn has
            (town bang (GuildString "100") [digitConverter])
            (sent "42" false 1 "!square 3")
            start start "!" square 0 (param TNumber) [] "3" [] []
            digitConverter (JNumber 3%float) 1 _ _ _ _ _ _ _).
  - exists ["3"], start. split; [ reflexivity | apply reach_refl ].
  - reflexivity.
  - discriminate.
  - discriminate.
  - reflexivity.
  - reflexivity.
  - reflexivity.
Defined.


Lemma rest_parameter_is_verbatim_witness :
  hears (town bang (GuildString "100") []) (sent "42" false 1 "!say  hello   world ")
  = (Resolved,
     {| world := 1;
        trace := [Execute unit say
                    [JMessage (sent "42" false 1 "!say  hello   world ");
                     JString " hello   world "]] |})
  /\ hears (town askPrefix (GuildString "100") []) (sent "42" false 1 "?say a  b")
     = (Resolved,
        {| world := 2;
           trace := [Execute unit say
                       [JMessage (sent "42" false 1 "?say a  b");
                        JString "a  b"]] |}).
Proof.
  split.
  - refine (@rest_parameter_is_verbatim
              nat nat nat nat unit permissionsIn has
              (town bang (GuildString "100") [])
              (sent "42" false 1 "!say  hello   world ")
              start start start "!" "say" " hello   world " say rest_param []
              _ _ _ _ _ _ _ _ _ _ _); try reflexivity.
    discriminate.
  - refine (@rest_parameter_is_verbatim
              nat nat nat nat unit permissionsIn has
              (town askPrefix (GuildString "100") [])
              (sent "42" false 1 "?say a  b")
              start {| world := 1; trace := [] |} {| world := 1; trace := [] |}
              "?" "say" "a  b" say rest_param []
              _ _ _ _ _ _ _ _ _ _ _); try reflexivity.
    discriminate.
Defined.

Lemma mention_gives_id_witness :
  @BuiltinCommandConverters.getUserIDByMention nat (JString "<@42>")
    = Return (JString "42")
  /\ @BuiltinCommandConverters.getUserIDByMention nat (JString "<@!42>")
     = Return (JString "42").
Proof. refine (@mention_gives_id nat "42" _). reflexivity. Defined.

Lemma no_mention_gives_no_user_witness :
  BuiltinCommandConverters.user users 1 (JMessage (sent "42" false 1 "!kick bob"))
    (JString "bob") 0 = (Return JNull, 0).
Proof.
  refine (proj1 (@no_mention_gives_no_user
                   nat nat 1 (JMessage (sent "42" false 1 "!kick bob")) JNull
                   "bob" 0 users members _)).
  reflexivity.
Defined.

Lemma mention_is_looked_up_witness :
  (BuiltinCommandConverters.user users 1 (JMessage (sent "7" false 1 "!kick <@42>"))
     (JString "<@42>") 0 = (Return (JObject 0), 0)
   /\ BuiltinCommandConverters.member members 1
        (JMessage (sent "7" false 1 "!kick <@42>")) (JString "<@42>") 0
      = (Return (JObject 1), 0))
  /\ (BuiltinCommandConverters.user users 1 (JMessage (sent "7" false 1 "!kick <@42>"))
        (JString "<@!42>") 0 = (Return (JObject 0), 0)
      /\ BuiltinCommandConverters.member members 1
           (JMessage (sent "7" false 1 "!kick <@42>")) (JString "<@!42>") 0
         = (Return (JObject 1), 0)).
Proof.
  split.
  - refine (@mention_is_looked_up
              nat nat 1 (sent "7" false 1 "!kick <@42>")
              (JMessage (sent "7" false 1 "!kick <@42>")) "42" "<@42>" 0
              users members _ _ _).
    + reflexivity.
    + discriminate.
    + left. reflexivity.
  - refine (@mention_is_looked_up
              nat nat 1 (sent "7" false 1 "!kick <@42>")
              (JMessage (sent "7" false 1 "!kick <@42>")) "42" "<@!42>" 0
              users members _ _ _).
    + reflexivity.
    + discriminate.
    + right. reflexivity.
Defined.

Lemma builtin_message_gives_the_token_witness :
  hears (town bang (GuildString "100") [messageConverter])
        (sent "42" false 1 "!quote hi")
  = (Resolved,
     {| world := 1;
        trace := [Execute unit quote [JMessage (sent "42" false 1 "!quote hi");
                                      JString "hi"]] |}).
Proof.
  refine (@builtin_message_gives_the_token
            nat nat nat nat unit permissionsIn has
            (town bang (GuildString "100") [messageConverter])
            (sent "42" false 1 "!quote hi")
            start start "!" quote 0 (param TMessage) [] "hi" [] []
            messageConverter _ _ _ _ _ _).
  - exists ["hi"], start. split; [ reflexivity | apply reach_refl ].
  - reflexivity.
  - discriminate.
  - discriminate.
  - reflexivity.
  - reflexivity.
Defined.

Lemma builtin_user_throws_under_dispatch_witness :
  hears (town bang (GuildString "100") [userConverter])
        (sent "7" false 1 "!kick <@42>")
  = (Resolved,
     {| world := 0;
        trace := [EmitCommandError
                    (Thrown (JError "mention.startsWith is not a function"))
                    (sent "7" false 1 "!kick <@42>") kick] |}).
Proof.
  refine (@builtin_user_throws_under_dispatch
            nat nat nat nat unit permissionsIn has
            (town bang (GuildString "100") [userConverter])
            (sent "7" false 1 "!kick <@42>")
            start start "!" kick 0 (param TUser) [] "<@42>" [] []
            userConverter users members _ _ _ _ _ _).
  - exists ["<@42>"], start. split; [ reflexivity | apply reach_refl ].
  - reflexivity.
  - discriminate.
  - discriminate.
  - reflexivity.
  - left. reflexivity.
Defined.

Lemma guild_array_drops_every_interaction_witness :
  receives (town bang (GuildArray ["100"]) []) (slashIn (Some "100") "later")
  = (Resolved, start).
Proof.
  refine (@guild_array_drops_every_interaction
            nat nat nat nat unit permissionsIn has
            (town bang (GuildArray ["100"]) []) (slashIn (Some "100") "later")
            start ["100"] _).
  reflexivity.
Defined.

Lemma missing_guild_option_rejects_witness :
  receives (town bang GuildUndefined []) (slashIn (Some "100") "later")
  = (RejectedWith
       (JError "Cannot read properties of undefined (reading 'includes')"), start).
Proof.
  refine (@missing_guild_option_rejects
            nat nat nat nat unit permissionsIn has
            (town bang GuildUndefined []) (slashIn (Some "100") "later") start _).
  reflexivity.
Defined.

Lemma guild_string_admits_only_that_guild_witness :
  receives (town bang (GuildString "100") []) (slashIn (Some "200") "later")
  = (Resolved, start)
  /\ receives (town bang (GuildString "100") []) (slashIn None "later")
     = (Resolved, start).
Proof.
  split.
  - refine (proj2 (@guild_string_admits_only_that_guild
                     nat nat nat nat unit permissionsIn has
                     (town bang (GuildString "100") []) (slashIn (Some "200") "later")
                     start "100" _ _) _).
    + reflexivity.
    + discriminate.
    + discriminate.
  - refine (proj2 (@guild_string_admits_only_that_guild
                     nat nat nat nat unit permissionsIn has
                     (town bang (GuildString "100") []) (slashIn None "later")
                     start "100" _ _) _).
    + reflexivity.
    + discriminate.
    + discriminate.
Defined.


Lemma interaction_calls_handler_witness :
  receives (town bang (GuildString "100") []) (slashIn (Some "100") "later")
  = (Resolved,
     {| world := 1;
        trace := [ExecuteSlash helloLater (slashIn (Some "100") "later") tt;
                  EmitSlashCommandError (Thrown (JError "boom"))
                    (slashIn (Some "100") "later") "later"] |}).
Proof.
  refine (@interaction_calls_handler
            nat nat nat nat unit permissionsIn has
            (town bang (GuildString "100") []) (slashIn (Some "100") "later")
            start helloLater (Raised (JError "boom")) 1 _ _ _ _ _ _ _);
    reflexivity.
Defined.

(** C7, as it is stated for every optional parameter, fails at an optional
    [rest] parameter: [remind(when?, ...what?)] called as [!remind 5m]
    leaves no token for [what], and the handler is called with the empty
    string as its value, one value more than those converted so far. *)
Lemma optional_rest_without_token_is_set :
  args remind
  = [optional_param TString; {| type := TString; optional := true; rest := true |}]
  /\ hears (town bang (GuildString "100") []) (sent "42" false 1 "!remind 5m")
     = (Resolved,
        {| world := 1;
           trace := [Execute unit remind
                       [JMessage (sent "42" false 1 "!remind 5m");
                        JString "5m"; JString ""]] |}).
Proof. split; reflexivity. Qed.

(** C10, as it is stated for every optional parameter, fails at an optional
    [rest] parameter: in [!remind 5m  x] the parameter [what] consumes the
    empty token between the two spaces, and the loop does not stop as it
    does with no token: the token [x] after it is joined in, and the
    handler gets [" x"], where with no token it gets the empty string. *)
Lemma optional_rest_takes_empty_token :
  Js.split " " "remind 5m  x" = ["remind"; "5m"; EmptyString; "x"]
  /\ hears (town bang (GuildString "100") []) (sent "42" false 1 "!remind 5m  x")
     = (Resolved,
        {| world := 1;
           trace := [Execute unit remind
                       [JMessage (sent "42" false 1 "!remind 5m  x");
                        JString "5m"; JString " x"]] |})
  /\ hears (town bang (GuildString "100") []) (sent "42" false 1 "!remind 5m")
     = (Resolved,
        {| world := 1;
           trace := [Execute unit remind
                       [JMessage (sent "42" false 1 "!remind 5m");
                        JString "5m"; JString ""]] |}).
Proof. repeat split. Qed.
